(** * project-1/requests.go: an HTTP server with two routes and a three-call driver

    The development embeds [requests.go] at the level of the interfaces the
    program is written against:
    - Go strings are byte strings ([string], one [ascii] per byte);
    - [fmt] verbs are the text they append ([%s], [%#v], [Println]);
    - a handler runs against a [ResponseWriter] state, and the server's
      handler is the [ServeMux] the program fills with its two routes;
    - goroutines are trees of the effects they perform (channel hand-off,
      console output, listening, HTTP calls), run by a step relation. *)

From Stdlib Require Import Ascii String ZArith NArith Lia List.
From Stdlib Require HexadecimalString.
From stdpp Require Import gmap strings list.

#[local] Arguments String.append !s1 s2 : simpl nomatch.

(** ** Byte strings *)

Module Bytes.

Definition dquote : ascii := "034"%char.
Definition backslash : ascii := "092"%char.
Definition LF : ascii := "010"%char.

(** [s1 ++ s2] on strings is written [+:+]. A one-byte string: *)
Definition char (c : ascii) : string := String c EmptyString.

(** The Go literal ["..."] of a text without special characters. *)
Definition quoted (s : string) : string := char dquote +:+ s +:+ char dquote.

Fixpoint bytes (s : string) : list ascii :=
  match s with
  | EmptyString => []
  | String c s' => c :: bytes s'
  end.

(** [strings.HasPrefix] *)
Fixpoint HasPrefix (s p : string) {struct p} : bool :=
  match p, s with
  | EmptyString, _ => true
  | String _ _, EmptyString => false
  | String b p', String a s' => if Ascii.eqb a b then HasPrefix s' p' else false
  end.

(** [strings.Contains] *)
Fixpoint Contains (s sub : string) : bool :=
  HasPrefix s sub ||
  match s with
  | EmptyString => false
  | String _ s' => Contains s' sub
  end.

(** [sub] occurs in [s]. *)
Definition Embeds (s sub : string) : Prop :=
  exists pre post, s = pre +:+ sub +:+ post.

(** [strings.Count(s, "\n")]-style count of one byte. *)
Fixpoint count (c : ascii) (s : string) : nat :=
  match s with
  | EmptyString => 0
  | String a s' => ((if Ascii.eqb a c then 1 else 0) + count c s')
  end.

(** [strings.Join] *)
Fixpoint Join (elems : list string) (sep : string) : string :=
  match elems with
  | [] => EmptyString
  | [e] => e
  | e :: rest => e +:+ sep +:+ Join rest sep
  end.

(** [strings.Cut(s, sep)] for a one-byte separator: the text before the first
    [sep] and, when there is one, the text after it. *)
Fixpoint Cut (s : string) (sep : ascii) : string * option string :=
  match s with
  | EmptyString => (EmptyString, None)
  | String a s' =>
      if Ascii.eqb a sep then (EmptyString, Some s')
      else let '(before, after) := Cut s' sep in (String a before, after)
  end.

End Bytes.
Import Bytes.

(** ** [strconv.Quote] and the [fmt] verbs the program uses *)

Module strconv.

Definition hexDigit (n : N) : ascii :=
  nth (N.to_nat n) (bytes "0123456789abcdef") "0"%char.

(** The escape of one byte inside a double-quoted Go literal: the quote and
    the backslash take a backslash, printable ASCII stands for itself, the
    control characters with a name take it, every other byte is [\x] and two
    hexadecimal digits. Bytes from 0x80 on are escaped as Go escapes a byte
    that is not part of a valid UTF-8 sequence; the Unicode tables by which Go
    keeps printable non-ASCII runes as they are lie outside this model. *)
Definition escapeByte (c : ascii) : string :=
  if Ascii.eqb c dquote || Ascii.eqb c backslash then String backslash (char c)
  else
    let n := N_of_ascii c in
    if (32 <=? n)%N && (n <=? 126)%N then char c
    else match n with
         | 7%N => "\a" | 8%N => "\b" | 12%N => "\f" | 10%N => "\n"
         | 13%N => "\r" | 9%N => "\t" | 11%N => "\v"
         | _ => "\x" +:+ char (hexDigit (n / 16)) +:+ char (hexDigit (n mod 16))
         end.

Fixpoint escape (s : string) : string :=
  match s with
  | EmptyString => EmptyString
  | String c s' => escapeByte c +:+ escape s'
  end.

(** [strconv.Quote(s)] *)
Definition Quote (s : string) : string := char dquote +:+ escape s +:+ char dquote.



End strconv.

Module fmt.

(** The operands the program formats with [%#v]: strings, booleans and
    pointers printed by address ([None] is the nil pointer). *)
Inductive Value :=
| VString (s : string)
| VBool (b : bool)
| VPointer (ty : string) (addr : option N).

Definition hex (n : N) : string :=
  HexadecimalString.NilZero.string_of_uint (N.to_hex_uint n).

(** [%#v] of an operand that is not a struct. *)
Definition goSyntax (v : Value) : string :=
  match v with
  | VString s => strconv.Quote s
  | VBool true => "true"
  | VBool false => "false"
  | VPointer ty None => "(" +:+ ty +:+ ")(nil)"
  | VPointer ty (Some a) => "(" +:+ ty +:+ ")(0x" +:+ hex a +:+ ")"
  end.

Definition goSyntaxField (f : string * Value) : string :=
  fst f +:+ ":" +:+ goSyntax (snd f).

(** [%#v] of a struct value: type name, then [Name:value] for each field in
    declaration order, separated by a comma and a space. *)
Definition goSyntaxStruct (ty : string) (fields : list (string * Value)) : string :=
  ty +:+ "{" +:+ Join (map goSyntaxField fields) ", " +:+ "}".

(** [%#v] of a non-nil pointer to a struct, at top level. *)
Definition goSyntaxStructPtr (ty : string) (fields : list (string * Value)) : string :=
  "&" +:+ goSyntaxStruct ty fields.

(** [fmt.Println(a, b)] of two texts: operands separated by a space, then a
    newline. *)
Definition Sprintln2 (a b : string) : string := a +:+ " " +:+ b +:+ char LF.

End fmt.

(** ** [net/url] *)

Module url.

(** [url.URL]. [User] is a pointer to a [Userinfo]: it is kept as the address
    it holds, which is all the program ever looks at (through [%#v]). *)
Record URL := {
  Scheme : string;
  Opaque : string;
  User : option N;
  Host : string;
  Path : string;
  RawPath : string;
  OmitHost : bool;
  ForceQuery : bool;
  RawQuery : string;
  Fragment : string;
  RawFragment : string
}.

(** The fields of a [URL] value in declaration order, as reflection shows
    them to [fmt]. *)
Definition fields (u : URL) : list (string * fmt.Value) :=
  [ ("Scheme", fmt.VString (Scheme u));
    ("Opaque", fmt.VString (Opaque u));
    ("User", fmt.VPointer "*url.Userinfo" (User u));
    ("Host", fmt.VString (Host u));
    ("Path", fmt.VString (Path u));
    ("RawPath", fmt.VString (RawPath u));
    ("OmitHost", fmt.VBool (OmitHost u));
    ("ForceQuery", fmt.VBool (ForceQuery u));
    ("RawQuery", fmt.VString (RawQuery u));
    ("Fragment", fmt.VString (Fragment u));
    ("RawFragment", fmt.VString (RawFragment u)) ].

(** [fmt.Sprintf("%#v", u)] for [u *url.URL]. *)
Definition goSyntax (u : URL) : string := fmt.goSyntaxStructPtr "url.URL" (fields u).

(** The URL the server builds from the request target [path?query] of a
    request line: the text before the first [?] is the path, the text after
    it the raw query (targets without percent-escapes, as the driver's). *)
Definition ofTarget (target : string) : URL :=
  let '(p, q) := Cut target "?"%char in
  {| Scheme := ""; Opaque := ""; User := None; Host := ""; Path := p;
     RawPath := ""; OmitHost := false;
     ForceQuery := match q with Some EmptyString => true | _ => false end;
     RawQuery := match q with Some q => q | None => "" end;
     Fragment := ""; RawFragment := "" |}.

End url.

(** ** [io]: errors and body streams *)

Module io.

(** An [error] value, as far as the program looks at it: the text of its
    [Error()] method. *)
Record error := Err { Error : string }.

(** A body stream ([io.ReadCloser]): the bytes it delivers, then end of file
    ([failure = None]) or a read failure. *)
Record Reader := { data : string; failure : option error }.

(** [ioutil.ReadAll(r)]: every byte read before end of file or the first
    failure; end of file is not reported as an error. *)
Definition ReadAll (r : Reader) : string * option error := (data r, failure r).

End io.

(** ** [path.Clean] *)

Module path.

Definition slash : ascii := "/"%char.
Definition dot : ascii := "."%char.

(** The read position is at the end of a path element. *)
Definition atElemEnd (rest : string) : bool :=
  match rest with
  | EmptyString => true
  | String c _ => Ascii.eqb c slash
  end.

(** [for out.w > dotdot && out.index(out.w) != '/' { out.w-- }]: the buffer
    is kept last byte first; [dropped] is the byte at index [out.w]. *)
Fixpoint backtrack (rout : list ascii) (dropped : ascii) (dotdot : nat) : list ascii :=
  match rout with
  | [] => []
  | b :: rout' =>
      if (dotdot <? length rout)%nat && negb (Ascii.eqb dropped slash)
      then backtrack rout' b dotdot
      else rout
  end.

(** [for ; r < n && path[r] != '/'; r++ { out.append(path[r]) }] *)
Fixpoint copyElem (rest : string) (rout : list ascii) : string * list ascii :=
  match rest with
  | EmptyString => (EmptyString, rout)
  | String c t => if Ascii.eqb c slash then (rest, rout) else copyElem t (c :: rout)
  end.

(** The loop [for r < n] of [Clean]: [rest] is [path[r:]], [rout] the output
    buffer (last byte first, so [out.w] is its length). Every turn reads at
    least one byte, so [length path] turns are enough. *)
Fixpoint cleanLoop (turns : nat) (rooted : bool) (rest : string)
    (rout : list ascii) (dotdot : nat) : list ascii :=
  match turns with
  | O => rout
  | S turns' =>
      match rest with
      | EmptyString => rout
      | String c t =>
          if Ascii.eqb c slash then
            (* empty path element *)
            cleanLoop turns' rooted t rout dotdot
          else if Ascii.eqb c dot && atElemEnd t then
            (* . element *)
            cleanLoop turns' rooted t rout dotdot
          else if Ascii.eqb c dot
                  && match t with
                     | String c' t' => Ascii.eqb c' dot && atElemEnd t'
                     | EmptyString => false
                     end then
            (* .. element: remove to last / *)
            let t' := match t with String _ t' => t' | EmptyString => EmptyString end in
            match rout with
            | b :: rout' =>
                if (dotdot <? length rout)%nat then
                  (* can backtrack *)
                  cleanLoop turns' rooted t' (backtrack rout' b dotdot) dotdot
                else if negb rooted then
                  let rout2 := dot :: dot :: slash :: rout in
                  cleanLoop turns' rooted t' rout2 (length rout2)
                else cleanLoop turns' rooted t' rout dotdot
            | [] =>
                if negb rooted then
                  (* cannot backtrack, but not rooted, so append .. element *)
                  let rout2 := [dot; dot] in
                  cleanLoop turns' rooted t' rout2 (length rout2)
                else cleanLoop turns' rooted t' rout dotdot
            end
          else
            (* real path element: add slash if needed, copy element *)
            let rout1 :=
              if (rooted && negb (length rout =? 1)%nat)
                 || (negb rooted && negb (length rout =? 0)%nat)
              then slash :: rout else rout in
            let '(rest', rout2) := copyElem rest rout1 in
            cleanLoop turns' rooted rest' rout2 dotdot
      end
  end.

Fixpoint ofBytes (l : list ascii) : string :=
  match l with
  | [] => EmptyString
  | c :: l' => String c (ofBytes l')
  end.

(** [path.Clean(path)] *)
Definition Clean (p : string) : string :=
  match p with
  | EmptyString => "."
  | String c t =>
      let rooted := Ascii.eqb c slash in
      let rout :=
        if rooted then cleanLoop (String.length p) true t [slash] 1
        else cleanLoop (String.length p) false p [] 0 in
      match rout with
      | [] => "."
      | _ => ofBytes (rev rout)
      end
  end.

End path.

(** ** [net/http], server side *)

Module http.

Definition StatusOK : nat := 200.
Definition StatusMovedPermanently : nat := 301.
Definition StatusBadRequest : nat := 400.
Definition StatusNotFound : nat := 404.

Definition MethodGet : string := "GET".
Definition MethodPost : string := "POST".

(** [http.Header] is [map[string][]string]. The keys the program and the
    library use here are already in canonical form. *)
Abbreviation Header := (gmap string (list string)).

Definition HeaderSet (key value : string) (h : Header) : Header := <[key := [value]]> h.
Definition HeaderDel (key : string) (h : Header) : Header := delete key h.
Definition HeaderGet (key : string) (h : Header) : string :=
  match h !! key with
  | Some (v :: _) => v
  | _ => ""
  end.

(** The state behind a [ResponseWriter]: the header map, whether the status
    line has been written, the status, and the body bytes written so far. *)
Record ResponseWriter := {
  header : Header;
  wroteHeader : bool;
  status : nat;
  body : string
}.

(** What a handler works on: its [ResponseWriter], and whether the request
    body has been closed. *)
Record Exchange := {
  w : ResponseWriter;
  bodyClosed : bool
}.

Definition newExchange : Exchange :=
  {| w := {| header := ∅; wroteHeader := false; status := 0; body := "" |};
     bodyClosed := false |}.

Definition onWriter (f : ResponseWriter -> ResponseWriter) (ex : Exchange) : Exchange :=
  {| w := f (w ex); bodyClosed := bodyClosed ex |}.

(** [w.Header().Set(key, value)] and [w.Header().Del(key)] *)
Definition SetHeader (key value : string) : Exchange -> Exchange :=
  onWriter (fun rw => {| header := HeaderSet key value (header rw);
                         wroteHeader := wroteHeader rw; status := status rw;
                         body := body rw |}).
Definition DelHeader (key : string) : Exchange -> Exchange :=
  onWriter (fun rw => {| header := HeaderDel key (header rw);
                         wroteHeader := wroteHeader rw; status := status rw;
                         body := body rw |}).

(** [w.WriteHeader(code)]: the first call fixes the status, a later call is
    ignored. *)
Definition WriteHeader (code : nat) : Exchange -> Exchange :=
  onWriter (fun rw =>
    if wroteHeader rw then rw
    else {| header := header rw; wroteHeader := true; status := code; body := body rw |}).

(** [w.Write(p)]: writes the status line with [StatusOK] first when no
    [WriteHeader] call came before. *)
Definition Write (p : string) (ex : Exchange) : Exchange :=
  onWriter (fun rw => {| header := header rw; wroteHeader := wroteHeader rw;
                         status := status rw; body := body rw +:+ p |})
           (WriteHeader StatusOK ex).

(** [fmt.Fprintf(w, ...)] and [fmt.Fprintln(w, s)] make one [Write] call with
    the formatted text. *)
Definition Fprintf (text : string) : Exchange -> Exchange := Write text.
Definition Fprintln (s : string) : Exchange -> Exchange := Write (s +:+ char LF).

(** [r.Body.Close()] *)
Definition CloseBody (ex : Exchange) : Exchange := {| w := w ex; bodyClosed := true |}.

(** When the handler returns without having written anything, the server
    writes the status line with [StatusOK]. *)
Definition finishRequest : Exchange -> Exchange := WriteHeader StatusOK.

(** [http.Error(w, error, code)] *)
Definition Error (error : string) (code : nat) (ex : Exchange) : Exchange :=
  let ex := DelHeader "Content-Length" ex in
  let ex := SetHeader "Content-Type" "text/plain; charset=utf-8" ex in
  let ex := SetHeader "X-Content-Type-Options" "nosniff" ex in
  let ex := WriteHeader code ex in
  Fprintln error ex.

(** An incoming request, as a handler receives it. *)
Record Request := {
  Method : string;
  URL : url.URL;
  ProtoMajor : nat;
  ProtoMinor : nat;
  ReqHeader : Header;
  Body : io.Reader;
  Host : string;
  RequestURI : string
}.

Definition ProtoAtLeast (r : Request) (major minor : nat) : bool :=
  (major <? ProtoMajor r)%nat
  || ((ProtoMajor r =? major)%nat && (minor <=? ProtoMinor r)%nat).

Definition HandlerFunc : Type := Request -> Exchange -> Exchange.

(** The handlers [ServeMux.Handler] can return: a registered function, or
    the library's redirect to [Path: path, RawQuery: query] with a status. *)
Inductive Handler :=
| Func (f : HandlerFunc)
| RedirectHandler (toPath rawQuery : string) (code : nat).

(** [http.NotFound] *)
Definition NotFound : HandlerFunc := fun _ => Error "404 page not found" StatusNotFound.

Definition muxEntry : Type := string * HandlerFunc.

(** [ServeMux]: the exact-match table [m], the patterns that end in a slash
    sorted from longest to shortest [es], and whether a pattern names a host. *)
Record ServeMux := {
  m : gmap string HandlerFunc;
  es : list muxEntry;
  hosts : bool
}.

Definition NewServeMux : ServeMux := {| m := ∅; es := []; hosts := false |}.

Fixpoint lastByte (s : string) : option ascii :=
  match s with
  | EmptyString => None
  | String c EmptyString => Some c
  | String _ s' => lastByte s'
  end.

Definition firstByte (s : string) : option ascii :=
  match s with
  | EmptyString => None
  | String c _ => Some c
  end.

Definition isByte (o : option ascii) (c : ascii) : bool :=
  match o with
  | Some a => Ascii.eqb a c
  | None => false
  end.

(** [appendSorted(es, e)]: [e] goes before the first entry with a shorter
    pattern. *)
Fixpoint appendSorted (es : list muxEntry) (e : muxEntry) : list muxEntry :=
  match es with
  | [] => [e]
  | x :: rest =>
      if (String.length (fst x) <? String.length (fst e))%nat then e :: es
      else x :: appendSorted rest e
  end.

(** [mux.HandleFunc(pattern, handler)], for a pattern that is not empty and
    not yet registered (the library panics otherwise). *)
Definition HandleFunc (pattern : string) (handler : HandlerFunc) (mux : ServeMux) : ServeMux :=
  {| m := <[pattern := handler]> (m mux);
     es := if isByte (lastByte pattern) path.slash
           then appendSorted (es mux) (pattern, handler) else es mux;
     hosts := hosts mux || negb (isByte (firstByte pattern) path.slash) |}.

(** [mux.match(path)]: an exact match first, then the longest pattern ending
    in a slash that is a prefix of the path. *)
Definition matchPath (mux : ServeMux) (p : string) : option HandlerFunc :=
  match m mux !! p with
  | Some h => Some h
  | None => snd <$> List.find (fun e => HasPrefix p (fst e)) (es mux)
  end.

(** [mux.handler(host, path)] *)
Definition handler (mux : ServeMux) (host p : string) : HandlerFunc :=
  let h := if hosts mux then matchPath mux (host +:+ p) else None in
  let h := match h with Some h => Some h | None => matchPath mux p end in
  match h with
  | Some h => h
  | None => NotFound
  end.

Definition registered (mux : ServeMux) (pattern : string) : bool :=
  match m mux !! pattern with Some _ => true | None => false end.

(** [mux.shouldRedirectRLocked(host, path)]: [path] has no handler of its
    own, and [path + "/"] has one. *)
Definition shouldRedirect (mux : ServeMux) (host p : string) : bool :=
  if registered mux p || registered mux (host +:+ p) then false
  else match p with
       | EmptyString => false
       | _ =>
           if registered mux (p +:+ "/") || registered mux (host +:+ p +:+ "/")
           then negb (isByte (lastByte p) path.slash)
           else false
       end.

(** [mux.redirectToPathSlash(host, path, u)]: the path to redirect to. *)
Definition redirectToPathSlash (mux : ServeMux) (host p : string) : option string :=
  if shouldRedirect mux host p then Some (p +:+ "/") else None.

(** [strings.IndexByte] and [strings.LastIndexByte] *)
Fixpoint IndexByte (s : string) (c : ascii) : option nat :=
  match s with
  | EmptyString => None
  | String a s' => if Ascii.eqb a c then Some O else S <$> IndexByte s' c
  end.

Fixpoint LastIndexByte (s : string) (c : ascii) : option nat :=
  match s with
  | EmptyString => None
  | String a s' =>
      match LastIndexByte s' c with
      | Some i => Some (S i)
      | None => if Ascii.eqb a c then Some O else None
      end
  end.

(** [s[i:]] and [s[i:j]] *)
Definition from (i : nat) (s : string) : string := String.substring i (String.length s - i) s.
Definition slice (i j : nat) (s : string) : string := String.substring i (j - i) s.

Definition has (s : string) (c : ascii) : bool :=
  match IndexByte s c with Some _ => true | None => false end.

(** [net.SplitHostPort(hostport)]: the host and the port, or [None] for the
    address errors. *)
Definition SplitHostPort (hostport : string) : option (string * string) :=
  match LastIndexByte hostport ":"%char with
  | None => None                              (* missing port in address *)
  | Some i =>
      let bracketed :=
        if isByte (firstByte hostport) "["%char then
          match IndexByte hostport "]"%char with
          | None => None                      (* missing ']' in address *)
          | Some e =>
              if (S e =? String.length hostport)%nat then None
              else if (S e =? i)%nat then Some (slice 1 e hostport, 1%nat, S e)
              else None
          end
        else
          let host := slice 0 i hostport in
          if has host ":"%char then None      (* too many colons in address *)
          else Some (host, O, O) in
      match bracketed with
      | None => None
      | Some (host, j, k) =>
          if has (from j hostport) "["%char then None
          else if has (from k hostport) "]"%char then None
          else Some (host, from (S i) hostport)
      end
  end.

(** [stripHostPort(h)]: [h] without its port, or [h] itself when it has no
    port or is not a valid host and port. *)
Definition stripHostPort (h : string) : string :=
  if negb (has h ":"%char) then h
  else match SplitHostPort h with
       | Some (host, _) => host
       | None => h
       end.

(** [cleanPath(p)]: the canonical path for [p], without [.] and [..]
    elements and repeated slashes, keeping a trailing slash. *)
Definition cleanPath (p : string) : string :=
  match p with
  | EmptyString => "/"
  | String c _ =>
      let p := if Ascii.eqb c path.slash then p else "/" +:+ p in
      let np := path.Clean p in
      if isByte (lastByte p) path.slash && negb (String.eqb np "/") then
        if (String.length p =? String.length np + 1)%nat && HasPrefix p np then p
        else np +:+ "/"
      else np
  end.

(** [mux.Handler(r)]: the handler for the request. Requests other than
    CONNECT have the port stripped from the host and the path cleaned, and
    are redirected when the cleaned path differs from the request's. *)
Definition Handler_of (mux : ServeMux) (r : Request) : Handler :=
  if String.eqb (Method r) "CONNECT" then
    match redirectToPathSlash mux (url.Host (URL r)) (url.Path (URL r)) with
    | Some p => RedirectHandler p (url.RawQuery (URL r)) StatusMovedPermanently
    | None => Func (handler mux (Host r) (url.Path (URL r)))
    end
  else
    let host := stripHostPort (Host r) in
    let p := cleanPath (url.Path (URL r)) in
    match redirectToPathSlash mux host p with
    | Some p' => RedirectHandler p' (url.RawQuery (URL r)) StatusMovedPermanently
    | None =>
        if negb (String.eqb p (url.Path (URL r))) then
          RedirectHandler p (url.RawQuery (URL r)) StatusMovedPermanently
        else Func (handler mux host (url.Path (URL r)))
    end.

(** What [ServeHTTP] leaves behind: the exchange a handler function wrote, or
    the library's redirect, of which the status and the target are kept. *)
Inductive Reply :=
| Handled (ex : Exchange)
| Redirected (code : nat) (toPath rawQuery : string).

(** [mux.ServeHTTP(w, r)] *)
Definition ServeHTTP (mux : ServeMux) (r : Request) (ex : Exchange) : Reply :=
  if String.eqb (RequestURI r) "*" then
    let ex := if ProtoAtLeast r 1 1 then SetHeader "Connection" "close" ex else ex in
    Handled (WriteHeader StatusBadRequest ex)
  else
    match Handler_of mux r with
    | Func f => Handled (f r ex)
    | RedirectHandler p q code => Redirected code p q
    end.

Definition replyStatus (rep : Reply) : nat :=
  match rep with
  | Handled ex => status (w ex)
  | Redirected code _ _ => code
  end.

(** The body a handler function wrote; the body of the library's redirect
    is not modelled. *)
Definition replyBody (rep : Reply) : option string :=
  match rep with
  | Handled ex => Some (body (w ex))
  | Redirected _ _ _ => None
  end.

(** The request the server reads from the request line
    [method target HTTP/1.1], the given header and a body that arrives
    whole. *)
Definition incoming (method target host : string) (h : Header) (body : string) : Request :=
  {| Method := method; URL := url.ofTarget target; ProtoMajor := 1; ProtoMinor := 1;
     ReqHeader := h; Body := {| io.data := body; io.failure := None |};
     Host := host; RequestURI := target |}.

End http.

(** ** [time], [net] and [net/http], client side *)

Module time.

(** [time.Duration] counts nanoseconds. *)
Definition Duration : Type := Z.
Definition Nanosecond : Duration := 1%Z.
Definition Second : Duration := (1000 * 1000 * 1000 * Nanosecond)%Z.

End time.

Module net.

Record Dialer := {
  Timeout : time.Duration;
  KeepAlive : time.Duration
}.

(** A listener, as far as the program looks at it: [Addr().String()]. *)
Record Listener := { Addr : string }.

End net.

Module client.

(** [http.Transport]: the dialer whose [DialContext] method the transport
    calls, and the cap on idle connections. *)
Record Transport := {
  DialContext : net.Dialer;
  MaxIdleConns : Z
}.

(** [http.Client]; no transport stands for [http.DefaultTransport], a zero
    timeout for no timeout. *)
Record Client := {
  Timeout : time.Duration;
  ClientTransport : option Transport
}.

Definition DefaultClient : Client := {| Timeout := 0%Z; ClientTransport := None |}.

(** An outgoing request: the method, the URL text that [NewRequest] was
    given, the header and the body. *)
Record Request := {
  Method : string;
  URL : string;
  Header : http.Header;
  Body : option string
}.

(** The request [http.NewRequest(method, url, body)] returns when the URL
    parses. *)
Definition newRequest (method url : string) (body : option string) : Request :=
  {| Method := method; URL := url; Header := ∅; Body := body |}.

(** [req.Header.Set(key, value)] *)
Definition SetHeader (key value : string) (req : Request) : Request :=
  {| Method := Method req; URL := URL req;
     Header := http.HeaderSet key value (Header req); Body := Body req |}.

(** A response, as the driver looks at it: the status and the body stream. *)
Record Response := {
  StatusCode : nat;
  RespBody : io.Reader
}.

End client.

(** ** Goroutines *)

(** A goroutine is the tree of the effects it performs; every node holds the
    rest of the goroutine, for each result the effect can have. [Return] ends
    the goroutine, [Panic] is an unrecovered run-time panic. *)
Inductive Go : Type :=
| Return
| Panic (msg : string)
| GoStmt (child : Go) (k : Go)
| Send (ch : nat) (v : string) (k : Go)
| Recv (ch : nat) (k : string -> Go)
| Print (text : string) (k : Go)
| Listen (network address : string) (k : option net.Listener -> Go)
| Serve (mux : http.ServeMux) (l : net.Listener) (k : Go)
| NewRequest (method url : string) (body : option string) (k : option client.Request -> Go)
| Get (url : string) (k : client.Response + io.error -> Go)
| Do (c : client.Client) (req : client.Request) (k : client.Response + io.error -> Go)
| Close (k : Go).

(** The panic of a method call or field access through nil. *)
Definition nilDereference : string :=
  "runtime error: invalid memory address or nil pointer dereference".

(** ** [package main] of [requests.go] *)

Module requests.

Import http.

(** The handler registered for ["/"]. *)
Definition getHandler : HandlerFunc := fun r ex =>
  let ex := Fprintf ("getHandler: incoming request" +:+ char LF) ex in
  Fprintf ("getHandler: r.Url " +:+ url.goSyntax (URL r) +:+ char LF) ex.

(** The handler registered for ["/raw_body"]. The deferred
    [r.Body.Close()] runs when the handler returns, on either path. *)
Definition postHandler : HandlerFunc := fun r ex =>
  let '(body, err) := io.ReadAll (Body r) in
  match err with
  | Some err =>
      let ex := Error (io.Error err) 500 ex in
      CloseBody ex
  | None =>
      let ex := Fprintf ("postHandler: raw body " +:+ body +:+ char LF) ex in
      CloseBody ex
  end.

(** The [mux] of [startServer]. *)
Definition mux : ServeMux :=
  HandleFunc "/raw_body" postHandler (HandleFunc "/" getHandler NewServeMux).

(** The server's answer to one request: [mux.ServeHTTP] on a fresh
    [ResponseWriter], then the implicit status line. *)
Definition serve (r : Request) : Reply :=
  match ServeHTTP mux r newExchange with
  | Handled ex => Handled (finishRequest ex)
  | Redirected code p q => Redirected code p q
  end.


(** The channel [addr] that [main] makes. *)
Definition addr : nat := 0.

Definition startServer (addr : nat) : Go :=
  Listen "tcp" ":0" (fun listener =>
  match listener with
  | None => Panic nilDereference            (* listener.Addr() on nil *)
  | Some l =>
      Send addr (net.Addr l)
      (Serve mux l
       Return)
  end).

Definition errorHappend (err : io.error) : string :=
  fmt.Sprintln2 "error happend" (io.Error err).

Definition LF3 : string := char LF +:+ char LF +:+ char LF.

Definition runGet (serverURL : string) (ret : Go) : Go :=
  let url := serverURL +:+ "/?param=123&param2=test" in
  Get url (fun res =>
  match res with
  | inr err => Print (errorHappend err) ret
  | inl resp =>
      let '(respBody, err) := io.ReadAll (client.RespBody resp) in
      Print ("http.Get body " +:+ strconv.Quote respBody +:+ LF3)
      (Close                                  (* deferred resp.Body.Close() *)
       ret)
  end).

Definition runGetFullReq (serverURL : string) (ret : Go) : Go :=
  let fullURL := serverURL +:+ "/?id=42&user=rvasily" in
  NewRequest MethodGet fullURL None (fun req =>
  match req with
  | None => Panic nilDereference            (* req.Header on nil *)
  | Some req =>
      let req := client.SetHeader "User-Agent" "coursera/golang" req in
      Do client.DefaultClient req (fun res =>
      match res with
      | inr err => Print (errorHappend err) ret
      | inl resp =>
          let '(respBody, err) := io.ReadAll (client.RespBody resp) in
          Print ("testGetFullReq resp " +:+ strconv.Quote respBody +:+ LF3)
          (Close
           ret)
      end)
  end).

Definition transport : client.Transport :=
  {| client.DialContext :=
       {| net.Timeout := (30 * time.Second)%Z;
          net.KeepAlive := (30 * time.Second)%Z |};
     client.MaxIdleConns := 100 |}.

Definition postClient : client.Client :=
  {| client.Timeout := (time.Second * 10)%Z;
     client.ClientTransport := Some transport |}.

(** The literal [{"id": 42, "user": "rvasily"}]. *)
Definition data : string :=
  "{" +:+ quoted "id" +:+ ": 42, " +:+ quoted "user" +:+ ": " +:+ quoted "rvasily" +:+ "}".

Definition runTransportAndPost (serverURL : string) (ret : Go) : Go :=
  let body := data in
  let url := serverURL +:+ "/raw_body" in
  NewRequest MethodPost url (Some body) (fun req =>
  match req with
  | None => Panic nilDereference
  | Some req =>
      let req := client.SetHeader "Content-Type" "application/json" req in
      Do postClient req (fun res =>
      match res with
      | inr err => Print (errorHappend err) ret
      | inl resp =>
          let '(respBody, err) := io.ReadAll (client.RespBody resp) in
          Print ("runTransport " +:+ strconv.Quote respBody +:+ LF3)
          (Close
           ret)
      end)
  end).

Definition main : Go :=
  GoStmt (startServer addr)
  (Recv addr (fun a =>
   let serverURL := "http://" +:+ a in
   Print (fmt.Sprintln2 "Server started at:" serverURL)
   (runGet serverURL
   (runGetFullReq serverURL
   (runTransportAndPost serverURL
    Return))))).

End requests.

(** ** Vocabulary of the properties *)



(** The output buffer of [path.Clean] (last byte first) starts with a slash. *)
Definition Rooted (rout : list ascii) : Prop := exists pre, rout = pre ++ [path.slash].

(** The lines the two handlers write, without their newline. *)
Definition ackLine : string := "getHandler: incoming request".
Definition urlLine (u : url.URL) : string := "getHandler: r.Url " +:+ url.goSyntax u.
Definition echoLine (b : string) : string := "postHandler: raw body " +:+ b.

(** Requests the properties are tried on. *)
Definition jsonHeader : http.Header := http.HeaderSet "Content-Type" "application/json" ∅.

(** The request of the driver's third call, as the server reads it. *)
Definition driverPost : http.Request :=
  http.incoming http.MethodPost "/raw_body" "[::]:8080" jsonHeader requests.data.

(** A request to [/raw_body] whose body breaks off after one byte. *)
Definition brokenPost : http.Request :=
  {| http.Method := http.MethodPost; http.URL := url.ofTarget "/raw_body";
     http.ProtoMajor := 1; http.ProtoMinor := 1; http.ReqHeader := jsonHeader;
     http.Body := {| io.data := "{"; io.failure := Some (io.Err "unexpected EOF") |};
     http.Host := "[::]:8080"; http.RequestURI := "/raw_body" |}.





(** ** Running goroutines *)

Module sched.

(** What a goroutine does on its own, with the result it got. *)
Inductive Action :=
| APrint (text : string)
| AListen (network address : string) (l : option net.Listener)
| AServeReturn
| ANewRequest (method url : string) (body : option string) (ok : bool)
| AGet (url : string) (res : client.Response + io.error)
| ADo (c : client.Client) (req : client.Request) (res : client.Response + io.error)
| AClose.

(** One step of a goroutine on its own. [Listen], [Get] and [Do] return what
    the network decides; [NewRequest] returns the request, or nil when the URL
    does not parse; [Serve] blocks until it fails. *)
Inductive local : Go -> Action -> Go -> Prop :=
| local_print text k :
    local (Print text k) (APrint text) k
| local_listen network address k l :
    local (Listen network address k) (AListen network address l) (k l)
| local_serve mux l k :
    local (Serve mux l k) AServeReturn k
| local_newrequest method url body k :
    local (NewRequest method url body k) (ANewRequest method url body true)
          (k (Some (client.newRequest method url body)))
| local_newrequest_nil method url body k :
    local (NewRequest method url body k) (ANewRequest method url body false) (k None)
| local_get url k res :
    local (Get url k) (AGet url res) (k res)
| local_do c req k res :
    local (Do c req k) (ADo c req res) (k res)
| local_close k :
    local (Close k) AClose k.

(** The events of a process; goroutines are numbered in the order they are
    started, [main] is goroutine 0. *)
Inductive Event :=
| Local (tid : nat) (a : Action)
| Spawn (tid child : nat)
| Handoff (sender receiver ch : nat) (v : string)
| PanicEv (tid : nat) (msg : string)
| Exit.

Inductive Process :=
| Running (ts : list Go)
| Exited
| Crashed (msg : string).

(** One step of the process: a goroutine steps on its own, starts another
    one, or hands a value to a receiver on an unbuffered channel; a panic in
    any goroutine ends the process, and so does the return of [main]. *)
Inductive step : Process -> Event -> Process -> Prop :=
| step_local ts i g a g' :
    ts !! i = Some g -> local g a g' ->
    step (Running ts) (Local i a) (Running (<[i := g']> ts))
| step_go ts i child k :
    ts !! i = Some (GoStmt child k) ->
    step (Running ts) (Spawn i (length ts)) (Running (<[i := k]> ts ++ [child]))
| step_handoff ts i j ch v k k' :
    ts !! i = Some (Send ch v k) -> ts !! j = Some (Recv ch k') ->
    step (Running ts) (Handoff i j ch v) (Running (<[j := k' v]> (<[i := k]> ts)))
| step_panic ts i msg :
    ts !! i = Some (Panic msg) ->
    step (Running ts) (PanicEv i msg) (Crashed msg)
| step_exit ts :
    ts !! 0 = Some Return ->
    step (Running ts) Exit Exited.

(** The executions from [p0], with their events in order. *)
Inductive exec (p0 : Process) : list Event -> Process -> Prop :=
| exec_nil : exec p0 [] p0
| exec_step tr p e p' : exec p0 tr p -> step p e p' -> exec p0 (tr ++ [e]) p'.

(** What goroutine [i] sees of an event. *)
Inductive Obs :=
| OAct (a : Action)
| OSpawn
| OSend (ch : nat) (v : string)
| ORecv (ch : nat) (v : string).

Definition view (i : nat) (e : Event) : list Obs :=
  match e with
  | Local j a => if decide (i = j) then [OAct a] else []
  | Spawn j _ => if decide (i = j) then [OSpawn] else []
  | Handoff s r ch v =>
      if decide (i = s) then [OSend ch v]
      else if decide (i = r) then [ORecv ch v] else []
  | PanicEv _ _ => []
  | Exit => []
  end.

Definition proj (i : nat) (tr : list Event) : list Obs := flat_map (view i) tr.

(** The steps of one goroutine, seen from inside. *)
Inductive lstep : Go -> Obs -> Go -> Prop :=
| lstep_act g a g' : local g a g' -> lstep g (OAct a) g'
| lstep_spawn child k : lstep (GoStmt child k) OSpawn k
| lstep_send ch v k : lstep (Send ch v k) (OSend ch v) k
| lstep_recv ch v k : lstep (Recv ch k) (ORecv ch v) (k v).

Inductive lrun : Go -> list Obs -> Go -> Prop :=
| lrun_nil g : lrun g [] g
| lrun_cons g o g1 os g' : lstep g o g1 -> lrun g1 os g' -> lrun g (o :: os) g'.

(** An observation of a discarded error: [net.Listen] or [http.NewRequest]
    returned nil. *)
Definition discarded (o : Obs) : Prop :=
  match o with
  | OAct (AListen _ _ None) => True
  | OAct (ANewRequest _ _ _ false) => True
  | _ => False
  end.

(** [P] holds of the goroutine and of every state it can reach without an
    observation in [skip]. *)
Inductive Holds (P : Go -> Prop) (skip : Obs -> Prop) : Go -> Prop :=
| Holds_intro g :
    P g ->
    (forall o g', lstep g o g' -> ~ skip o -> Holds P skip g') ->
    Holds P skip g.

Definition never (o : Obs) : Prop := False.

Definition noPanic (g : Go) : Prop := match g with Panic _ => False | _ => True end.
Definition noSpawn (g : Go) : Prop := match g with GoStmt _ _ => False | _ => True end.
Definition noSend (g : Go) : Prop := match g with Send _ _ _ => False | _ => True end.
Definition noRecv (g : Go) : Prop := match g with Recv _ _ => False | _ => True end.

(** A goroutine that does not stand at a panic, and cannot reach one unless
    [Listen] or [NewRequest] returns nil. *)
Definition Guarded : Go -> Prop := Holds noPanic discarded.

(** A goroutine that starts no goroutine, whatever happens. *)
Definition SpawnFree : Go -> Prop := Holds noSpawn never.

End sched.

(** ** The driver's script *)

Module script.

Import sched.

(** [main] after its [go] statement. *)
Definition afterGo : Go :=
  Recv requests.addr (fun a =>
   let serverURL := "http://" +:+ a in
   Print (fmt.Sprintln2 "Server started at:" serverURL)
   (requests.runGet serverURL
   (requests.runGetFullReq serverURL
   (requests.runTransportAndPost serverURL
    Return)))).

(** The process after the [go] statement: [main] and the server goroutine. *)
Definition started : Process := Running [afterGo; requests.startServer requests.addr].

Definition Result : Type := client.Response + io.error.

(** A result to fill in where a run has not got that far. *)
Definition noResult : Result := inr (io.Err "").

(** The line a call prints for its result. *)
Definition resultText (label : string) (res : Result) : string :=
  match res with
  | inr err => requests.errorHappend err
  | inl resp =>
      label +:+ strconv.Quote (fst (io.ReadAll (client.RespBody resp))) +:+ requests.LF3
  end.

(** The body is closed after a call that got a response. *)
Definition closing (res : Result) : list Obs :=
  match res with
  | inl _ => [OAct AClose]
  | inr _ => []
  end.

Definition call1 (serverURL : string) (res : Result) : list Obs :=
  [ OAct (AGet (serverURL +:+ "/?param=123&param2=test") res);
    OAct (APrint (resultText "http.Get body " res)) ] ++ closing res.

Definition request2 (serverURL : string) : client.Request :=
  client.SetHeader "User-Agent" "coursera/golang"
    (client.newRequest http.MethodGet (serverURL +:+ "/?id=42&user=rvasily") None).

Definition call2 (serverURL : string) (ok : bool) (res : Result) : list Obs :=
  OAct (ANewRequest http.MethodGet (serverURL +:+ "/?id=42&user=rvasily") None ok)
  :: if ok then
       [ OAct (ADo client.DefaultClient (request2 serverURL) res);
         OAct (APrint (resultText "testGetFullReq resp " res)) ] ++ closing res
     else [].

Definition request3 (serverURL : string) : client.Request :=
  client.SetHeader "Content-Type" "application/json"
    (client.newRequest http.MethodPost (serverURL +:+ "/raw_body") (Some requests.data)).

Definition call3 (serverURL : string) (ok : bool) (res : Result) : list Obs :=
  OAct (ANewRequest http.MethodPost (serverURL +:+ "/raw_body") (Some requests.data) ok)
  :: if ok then
       [ OAct (ADo requests.postClient (request3 serverURL) res);
         OAct (APrint (resultText "runTransport " res)) ] ++ closing res
     else [].

(** What the network and the URL parser answer in one run of the driver. *)
Record Answers := {
  address : string;
  res1 : Result;
  ok2 : bool;
  res2 : Result;
  ok3 : bool;
  res3 : Result
}.

(** All that [main] does in a run with these answers: the hand-off of the
    address, the start line, then the three calls one after the other, each
    with the line it prints; a request that is not built ends the run. *)
Definition driver (ans : Answers) : list Obs :=
  let serverURL := "http://" +:+ address ans in
  [ OSpawn;
    ORecv requests.addr (address ans);
    OAct (APrint (fmt.Sprintln2 "Server started at:" serverURL)) ]
  ++ call1 serverURL (res1 ans)
  ++ call2 serverURL (ok2 ans) (res2 ans)
  ++ (if ok2 ans then call3 serverURL (ok3 ans) (res3 ans) else []).

(** All that the server goroutine does when it gets the listener [l]. *)
Definition server (l : net.Listener) : list Obs :=
  [ OAct (AListen "tcp" ":0" (Some l));
    OSend requests.addr (net.Addr l);
    OAct AServeReturn ].

(** A client call of the driver. *)
Definition isCall (e : Event) : Prop :=
  match e with
  | Local 0 (AGet _ _) => True
  | Local 0 (ADo _ _ _) => True
  | _ => False
  end.

End script.

(** A run that goes through the observations [full] and on into [ret], or
    stops inside [full]. *)
Definition through (full : list sched.Obs) (ret : Go) (obs : list sched.Obs) (g : Go) : Prop :=
  obs `prefix_of` full
  \/ exists obs', obs = full ++ obs' /\ sched.lrun ret obs' g.

(** The execution in which the server gets the listener [l] and the driver
    gets the answers [ans]: the [go] statement, [Listen], the hand-off, then
    what the driver does, then the return of [main]. *)
Definition asEvent (i : nat) (o : sched.Obs) : list sched.Event :=
  match o with
  | sched.OAct a => [sched.Local i a]
  | _ => []
  end.

Definition fullRun (l : net.Listener) (ans : script.Answers) : list sched.Event :=
  [ sched.Spawn 0 1;
    sched.Local 1 (sched.AListen "tcp" ":0" (Some l));
    sched.Handoff 1 0 requests.addr (net.Addr l) ]
  ++ flat_map (asEvent 0) (script.driver ans)
  ++ [sched.Exit].

Definition answers (l : net.Listener) (r1 r2 r3 : script.Result) : script.Answers :=
  {| script.address := net.Addr l;
     script.res1 := r1; script.ok2 := true; script.res2 := r2;
     script.ok3 := true; script.res3 := r3 |}.

(** A listener and an error to try the properties on. *)
Definition someListener : net.Listener := {| net.Addr := "[::]:8080" |}.
Definition refused : io.error := io.Err "connection refused".
Definition allRefused : script.Answers :=
  answers someListener (inr refused) (inr refused) (inr refused).

(** The driver's calls all have one shape: the error of the call is printed
    and the function returns to [ret]; the body of a response is printed
    behind a label, then closed, and the function returns to [ret]; and [ret]
    is the start of the next call or the end of [main]. *)
Definition nextStart (g : Go) : Prop :=
  match g with
  | NewRequest _ _ _ _ => True
  | Return => True
  | _ => False
  end.

Definition callShape (g : Go) : Prop :=
  match g with
  | Get _ k | Do _ _ k =>
      exists label ret,
        (count LF label = 0 /\ nextStart ret)
        /\ forall res,
             k res = match res with
                     | inr err => Print (requests.errorHappend err) ret
                     | inl resp =>
                         Print (label +:+ strconv.Quote (io.data (client.RespBody resp))
                                      +:+ requests.LF3)
                               (Close ret)
                     end
  | _ => True
  end.

(** The result of a call action. *)
Definition callResult (a : sched.Action) : option script.Result :=
  match a with
  | sched.AGet _ res => Some res
  | sched.ADo _ _ res => Some res
  | _ => None
  end.



(** The first call of the driver, refused and answered. *)
Definition get1 : string := "http://[::]:8080/?param=123&param2=test".

(** The only panic of the program is the nil dereference. *)
Definition panicIsNil (g : Go) : Prop :=
  match g with
  | Panic msg => msg = nilDereference
  | _ => True
  end.

(** The execution in which the server does not get a listener. *)
Definition bindFailure : list sched.Event :=
  [ sched.Spawn 0 1;
    sched.Local 1 (sched.AListen "tcp" ":0" None);
    sched.PanicEv 1 nilDereference ].

(** ** A run in which every call is answered by the server *)

(** The response that reaches the client when the answer of a handler
    arrives whole (requests other than HEAD). *)
Definition deliver (rep : http.Reply) : script.Result :=
  match rep with
  | http.Handled ex =>
      inl {| client.StatusCode := http.status (http.w ex);
             client.RespBody := {| io.data := http.body (http.w ex); io.failure := None |} |}
  | http.Redirected _ _ _ => inr (io.Err "redirect")
  end.

(** The result of a call whose request reaches the server as the request
    line [method target], with the address as host. *)
Definition served (method target host : string) (h : http.Header) (body : string) :
    script.Result :=
  deliver (requests.serve (http.incoming method target host h body)).

Definition servedAnswers (l : net.Listener) : script.Answers :=
  answers l
    (served http.MethodGet "/?param=123&param2=test" (net.Addr l) ∅ "")
    (served http.MethodGet "/?id=42&user=rvasily" (net.Addr l)
       (http.HeaderSet "User-Agent" "coursera/golang" ∅) "")
    (served http.MethodPost "/raw_body" (net.Addr l) jsonHeader requests.data).

(** The texts [main] writes to the console, in order. *)
Definition printed (tr : list sched.Event) : list string :=
  flat_map (fun e => match e with
                     | sched.Local 0 (sched.APrint text) => [text]
                     | _ => []
                     end) tr.

(** [data] as [%#v] prints it inside a string. *)
Definition escapedData : string :=
  "{\" +:+ quoted "id\" +:+ ": 42, \" +:+ quoted "user\" +:+ ": \"
       +:+ quoted "rvasily\" +:+ "}".




(** ** Clean paths *)











(** * Properties *)

(** ** Byte strings *)

Section BytesFacts.


Lemma append_assoc (a b c : string) : (a +:+ b) +:+ c = a +:+ (b +:+ c).
Proof. induction a as [|x a IH]; simpl; [reflexivity | now f_equal]. Qed.

Lemma count_append (c : ascii) (a b : string) :
  count c (a +:+ b) = (count c a + count c b).
Proof. induction a as [|x a IH]; simpl; [reflexivity | rewrite IH; lia]. Qed.

Lemma HasPrefix_spec (s p : string) :
  HasPrefix s p = true <-> exists t, s = p +:+ t.
Proof.
  revert s. induction p as [|b p IH]; intros s; simpl.
  - split; [intros _; now exists s | reflexivity].
  - destruct s as [|a s].
    + split; [discriminate | intros [t Ht]; discriminate].
    + destruct (Ascii.eqb_spec a b) as [->|Hne].
      * rewrite IH. split; intros [t Ht]; exists t; [now rewrite Ht | now inversion Ht].
      * split; [discriminate | intros [t Ht]; inversion Ht; contradiction].
Qed.

Lemma Contains_spec (s sub : string) :
  Contains s sub = true <-> Embeds s sub.
Proof.
  induction s as [|a s IH]; simpl.
  - rewrite orb_false_r, HasPrefix_spec. split.
    + intros [t Ht]. now exists EmptyString, t.
    + intros [pre [post H]]. destruct pre; simpl in H; [now exists post | discriminate].
  - rewrite orb_true_iff, HasPrefix_spec, IH. split.
    + intros [[t Ht] | [pre [post H]]].
      * now exists EmptyString, t.
      * exists (String a pre), post. simpl. now rewrite H.
    + intros [pre [post H]]. destruct pre as [|x pre]; simpl in H.
      * left. now exists post.
      * right. inversion H. now exists pre, post.
Qed.




End BytesFacts.

(** ** Quoting and [%#v] *)

Section QuoteFacts.

Import strconv.

Lemma escapeByte_no_LF (c : ascii) : count LF (escapeByte c) = 0.
Proof. destruct c as [[] [] [] [] [] [] [] []]; reflexivity. Qed.

Lemma escape_no_LF (s : string) : count LF (escape s) = 0.
Proof.
  induction s as [|c s IH]; simpl; [reflexivity|].
  now rewrite count_append, escapeByte_no_LF, IH.
Qed.

Lemma Quote_no_LF (s : string) : count LF (Quote s) = 0.
Proof.
  unfold Quote. now rewrite !count_append, escape_no_LF.
Qed.











End QuoteFacts.

(** ** Cleaned paths are rooted *)

Section CleanFacts.

Import path.

Lemma Rooted_cons (c : ascii) (rout : list ascii) : Rooted rout -> Rooted (c :: rout).
Proof. intros [pre ->]. now exists (c :: pre). Qed.

Lemma Rooted_tail (b : ascii) (rout : list ascii) :
  Rooted (b :: rout) -> 1 < length (b :: rout) -> Rooted rout.
Proof.
  intros [pre H] Hlen. destruct pre as [|x pre]; simpl in H.
  - inversion H; subst. simpl in Hlen. lia.
  - inversion H. now exists pre.
Qed.

Lemma backtrack_rooted (rout : list ascii) (d : ascii) :
  Rooted rout -> Rooted (backtrack rout d 1).
Proof.
  revert d. induction rout as [|b rout IH]; intros d H; simpl; [exact H|].
  destruct (1 <? S (length rout))%nat eqn:Hlen; simpl; [|exact H].
  destruct (negb (Ascii.eqb d slash)); [|exact H].
  apply IH, (Rooted_tail b); [exact H|].
  apply Nat.ltb_lt in Hlen. simpl. lia.
Qed.

Lemma copyElem_rooted (rest : string) (rout : list ascii) :
  Rooted rout -> Rooted (snd (copyElem rest rout)).
Proof.
  revert rout. induction rest as [|c t IH]; intros rout H; simpl; [exact H|].
  destruct (Ascii.eqb c slash); [exact H|].
  apply IH, Rooted_cons, H.
Qed.

Lemma cleanLoop_rooted (turns : nat) (rest : string) (rout : list ascii) :
  Rooted rout -> Rooted (cleanLoop turns true rest rout 1).
Proof.
  revert rest rout. induction turns as [|n IH]; intros rest rout H; simpl; [exact H|].
  destruct rest as [|c t]; [exact H|].
  destruct (Ascii.eqb c slash) eqn:Hs; [now apply IH|].
  destruct (Ascii.eqb c dot && atElemEnd t); [now apply IH|].
  match goal with |- context [if ?b then _ else _] => destruct b end.
  - destruct rout as [|b rout']; [now apply IH|].
    destruct (1 <? length (b :: rout'))%nat eqn:Hlen; simpl; [|now apply IH].
    apply IH, backtrack_rooted, (Rooted_tail b); [exact H|].
    now apply Nat.ltb_lt in Hlen.
  - simpl. rewrite Hs.
    match goal with |- context [copyElem t ?b] =>
      pose proof (copyElem_rooted t b) as Hr; destruct (copyElem t b) as [rest' rout2]
    end.
    apply IH, Hr, Rooted_cons.
    destruct (negb (length rout =? 1)%nat); [apply Rooted_cons|]; exact H.
Qed.

Lemma ofBytes_rev_rooted (rout : list ascii) :
  Rooted rout -> http.firstByte (ofBytes (rev rout)) = Some slash.
Proof. intros [pre ->]. now rewrite rev_app_distr. Qed.

Lemma Clean_rooted (t : string) : http.firstByte (Clean (String slash t)) = Some slash.
Proof.
  unfold Clean. change (Ascii.eqb slash slash) with true. cbv iota beta zeta.
  pose proof (cleanLoop_rooted (String.length (String slash t)) t [slash]) as H.
  specialize (H (ex_intro _ [] eq_refl)).
  destruct (cleanLoop _ true t [slash] 1) as [|b rout] eqn:E.
  - destruct H as [pre H]. destruct pre; discriminate H.
  - apply ofBytes_rev_rooted, H.
Qed.

Lemma firstByte_append (a b : string) :
  a <> EmptyString -> http.firstByte (a +:+ b) = http.firstByte a.
Proof. destruct a; [congruence | reflexivity]. Qed.

(** [cleanPath] returns a path that starts with a slash. *)
Lemma cleanPath_rooted (p : string) : http.firstByte (http.cleanPath p) = Some slash.
Proof.
  unfold http.cleanPath. destruct p as [|c t]; [reflexivity|].
  set (p' := if Ascii.eqb c slash then String c t else "/" +:+ String c t).
  assert (Hp' : exists t', p' = String slash t').
  { subst p'. destruct (Ascii.eqb_spec c slash) as [->|_]; eauto. }
  destruct Hp' as [t' ->].
  pose proof (Clean_rooted t') as Hnp.
  destruct (_ && _); [|exact Hnp].
  destruct (_ && _); [reflexivity|].
  rewrite firstByte_append; [exact Hnp|].
  intros E. rewrite E in Hnp. discriminate Hnp.
Qed.

End CleanFacts.

(** ** Routing by the program's mux *)

Section Routing.

Import http requests.

Lemma mux_m (p : string) :
  m mux !! p =
  if decide ("/raw_body" = p) then Some postHandler
  else if decide ("/" = p) then Some getHandler else None.
Proof.
  unfold mux, HandleFunc, NewServeMux. cbn [m]. rewrite !lookup_insert.
  repeat case_decide; reflexivity.
Qed.

Lemma mux_es : es mux = [("/", getHandler)].
Proof. reflexivity. Qed.

Lemma mux_hosts : hosts mux = false.
Proof. reflexivity. Qed.

Lemma registered_iff (p : string) :
  registered mux p = true <-> p = "/raw_body" \/ p = "/".
Proof.
  unfold registered. rewrite mux_m.
  destruct (decide ("/raw_body" = p)) as [<-|H1]; [split; auto|].
  destruct (decide ("/" = p)) as [<-|H2]; [split; auto|].
  split; [discriminate | intros [-> | ->]; congruence].
Qed.

Lemma lastByte_append_slash (t : string) : lastByte (t +:+ "/") = Some path.slash.
Proof.
  induction t as [|c t IH]; [reflexivity|].
  simpl. destruct (t +:+ "/") eqn:E; [destruct t; discriminate E | exact IH].
Qed.

Lemma registered_append_slash (t : string) :
  registered mux (t +:+ "/") = true -> t = EmptyString.
Proof.
  rewrite registered_iff. intros [H | H].
  - pose proof (lastByte_append_slash t) as Hl. rewrite H in Hl. discriminate Hl.
  - destruct t as [|c t]; [reflexivity|]. simpl in H. inversion H as [[Hc Ht]].
    destruct t; discriminate Ht.
Qed.

Lemma rooted_nonempty (host p : string) :
  firstByte p = Some path.slash -> p <> EmptyString /\ host +:+ p <> EmptyString.
Proof.
  destruct p as [|c p]; [discriminate|]. intros _. split; [discriminate|].
  destruct host; discriminate.
Qed.

(** No path that starts with a slash is redirected to itself plus a slash. *)
Lemma shouldRedirect_rooted (host p : string) :
  firstByte p = Some path.slash -> shouldRedirect mux host p = false.
Proof.
  intros Hp. destruct (rooted_nonempty host p Hp) as [Hne Hne'].
  unfold shouldRedirect. destruct (_ || _); [reflexivity|].
  destruct p as [|c p]; [reflexivity|].
  destruct (registered mux (String c p +:+ "/")) eqn:E1.
  { apply registered_append_slash in E1. discriminate E1. }
  destruct (registered mux (host +:+ String c p +:+ "/")) eqn:E2; [|reflexivity].
  rewrite <- append_assoc in E2. apply registered_append_slash in E2. contradiction.
Qed.

Lemma handler_get (host p : string) :
  firstByte p = Some path.slash -> p <> "/raw_body" -> handler mux host p = getHandler.
Proof.
  intros Hp Hne. unfold handler, matchPath. rewrite mux_hosts, mux_m, mux_es.
  case_decide; [congruence|]. case_decide; [reflexivity|].
  destruct p as [|c p]; [discriminate|]. simpl in Hp. inversion Hp; subst.
  reflexivity.
Qed.

Lemma handler_post (host : string) : handler mux host "/raw_body" = postHandler.
Proof. unfold handler, matchPath. rewrite mux_hosts, mux_m. reflexivity. Qed.

(** Every request whose path is in canonical form is handed to the handler
    its path selects, without a redirect. *)
Lemma Handler_of_canonical (r : Request) :
  cleanPath (url.Path (URL r)) = url.Path (URL r) ->
  Handler_of mux r = Func (handler mux
                             (if String.eqb (Method r) "CONNECT" then Host r
                              else stripHostPort (Host r))
                             (url.Path (URL r))).
Proof.
  intros Hc. pose proof (cleanPath_rooted (url.Path (URL r))) as Hp.
  rewrite Hc in Hp. unfold Handler_of, redirectToPathSlash.
  destruct (String.eqb (Method r) "CONNECT").
  - now rewrite shouldRedirect_rooted.
  - rewrite Hc, shouldRedirect_rooted by exact Hp. now rewrite String.eqb_refl.
Qed.

Lemma Handler_of_get (r : Request) :
  cleanPath (url.Path (URL r)) = url.Path (URL r) ->
  url.Path (URL r) <> "/raw_body" ->
  Handler_of mux r = Func getHandler.
Proof.
  intros Hc Hne. rewrite Handler_of_canonical by exact Hc.
  rewrite handler_get; [reflexivity | | exact Hne].
  rewrite <- Hc. apply cleanPath_rooted.
Qed.

Lemma Handler_of_post (r : Request) :
  url.Path (URL r) = "/raw_body" -> Handler_of mux r = Func postHandler.
Proof.
  intros Hp. rewrite Handler_of_canonical by (now rewrite Hp).
  now rewrite Hp, handler_post.
Qed.

Lemma RequestURI_not_star (r : Request) :
  RequestURI r <> "*" -> String.eqb (RequestURI r) "*" = false.
Proof. intros H. now apply String.eqb_neq. Qed.

End Routing.

(** ** The two routes *)

Section Routes.

Import http requests.

Lemma serve_getHandler (r : Request) :
  RequestURI r <> "*" ->
  Handler_of mux r = Func getHandler ->
  serve r = Handled
    {| w := {| header := ∅; wroteHeader := true; status := StatusOK;
               body := ackLine +:+ char LF +:+ urlLine (URL r) +:+ char LF |};
       bodyClosed := false |}.
Proof.
  intros Hstar Hh. unfold serve, ServeHTTP.
  rewrite (RequestURI_not_star r Hstar), Hh. unfold getHandler.
  cbv [Fprintf Write WriteHeader onWriter finishRequest newExchange w header
       wroteHeader status body bodyClosed].
  cbn [String.append]. unfold ackLine, urlLine. now rewrite !append_assoc.
Qed.

Lemma serve_postHandler_ok (r : Request) (b : string) :
  RequestURI r <> "*" ->
  url.Path (URL r) = "/raw_body" ->
  io.ReadAll (Body r) = (b, None) ->
  serve r = Handled
    {| w := {| header := ∅; wroteHeader := true; status := StatusOK;
               body := echoLine b +:+ char LF |};
       bodyClosed := true |}.
Proof.
  intros Hstar Hp Hb. unfold serve, ServeHTTP.
  rewrite (RequestURI_not_star r Hstar), (Handler_of_post r Hp).
  unfold postHandler. rewrite Hb. reflexivity.
Qed.

Lemma serve_postHandler_err (r : Request) (b : string) (e : io.error) :
  RequestURI r <> "*" ->
  url.Path (URL r) = "/raw_body" ->
  io.ReadAll (Body r) = (b, Some e) ->
  serve r = Handled
    {| w := {| header := HeaderSet "X-Content-Type-Options" "nosniff"
                           (HeaderSet "Content-Type" "text/plain; charset=utf-8"
                              (HeaderDel "Content-Length" ∅));
               wroteHeader := true; status := 500;
               body := io.Error e +:+ char LF |};
       bodyClosed := true |}.
Proof.
  intros Hstar Hp Hb. unfold serve, ServeHTTP.
  rewrite (RequestURI_not_star r Hstar), (Handler_of_post r Hp).
  unfold postHandler. rewrite Hb. reflexivity.
Qed.

End Routes.

Section RouteClaims.

Import http requests.


(** C1, amended. A request to [/raw_body] whose body is read whole, as the
    bytes [b], is answered with status 200 and the body
    [postHandler: raw body ], then [b] unchanged, then a newline. The POST of
    the literal [{"id": 42, "user": "rvasily"}] is answered with the line
    [postHandler: raw body {"id": 42, "user": "rvasily"}] and its newline. *)
Theorem raw_body_echoes_body :
  (forall (r : Request) (b : string),
      RequestURI r <> "*" ->
      url.Path (URL r) = "/raw_body" ->
      io.ReadAll (Body r) = (b, None) ->
      replyStatus (serve r) = 200
      /\ replyBody (serve r) = Some ("postHandler: raw body " +:+ b +:+ char LF))
  /\ (forall (host : string) (h : Header),
         replyBody (serve (incoming MethodPost "/raw_body" host h data))
         = Some ("postHandler: raw body {" +:+ quoted "id" +:+ ": 42, "
                 +:+ quoted "user" +:+ ": " +:+ quoted "rvasily" +:+ "}" +:+ char LF)).
Proof.
  assert (G : forall (r : Request) (b : string),
             RequestURI r <> "*" -> url.Path (URL r) = "/raw_body" ->
             io.ReadAll (Body r) = (b, None) ->
             replyStatus (serve r) = 200
             /\ replyBody (serve r) = Some ("postHandler: raw body " +:+ b +:+ char LF)).
  { intros r b Hstar Hp Hb. rewrite (serve_postHandler_ok r b Hstar Hp Hb).
    split; [reflexivity|]. cbn [replyBody w body]. unfold echoLine.
    now rewrite append_assoc. }
  split; [exact G|].
  intros host h.
  destruct (G (incoming MethodPost "/raw_body" host h data) data) as [_ ->];
    [discriminate | reflexivity | reflexivity |].
  reflexivity.
Qed.

Lemma raw_body_echoes_body_witness :
  RequestURI driverPost <> "*"
  /\ url.Path (URL driverPost) = "/raw_body"
  /\ io.ReadAll (Body driverPost) = (data, None)
  /\ replyStatus (serve driverPost) = 200
  /\ replyBody (serve driverPost) = Some ("postHandler: raw body " +:+ data +:+ char LF).
Proof.
  assert (H1 : RequestURI driverPost <> "*") by discriminate.
  assert (H2 : url.Path (URL driverPost) = "/raw_body") by reflexivity.
  assert (H3 : io.ReadAll (Body driverPost) = (data, None)) by reflexivity.
  exact (conj H1 (conj H2 (conj H3
           (proj1 raw_body_echoes_body driverPost data H1 H2 H3)))).
Defined.

(** The body of the answer to the driver's POST is not the bare line: it
    ends with a newline. *)
Lemma raw_body_answer_ends_with_newline :
  replyBody (serve driverPost)
  <> Some ("postHandler: raw body {" +:+ quoted "id" +:+ ": 42, "
           +:+ quoted "user" +:+ ": " +:+ quoted "rvasily" +:+ "}").
Proof. vm_compute. discriminate. Qed.

End RouteClaims.

Section RouteClaims2.

Import http requests.

(** C2, amended. A request to [/raw_body] whose body fails to be read is
    answered with status 500 and a body that is the error's text followed by
    a newline; nothing else is written: the echo line is not. *)
Theorem raw_body_read_failure (r : Request) (b : string) (e : io.error) :
  RequestURI r <> "*" ->
  url.Path (URL r) = "/raw_body" ->
  io.ReadAll (Body r) = (b, Some e) ->
  replyStatus (serve r) = 500
  /\ replyBody (serve r) = Some (io.Error e +:+ char LF).
Proof.
  intros Hstar Hp Hb. rewrite (serve_postHandler_err r b e Hstar Hp Hb).
  split; reflexivity.
Qed.

Lemma raw_body_read_failure_witness :
  RequestURI brokenPost <> "*"
  /\ url.Path (URL brokenPost) = "/raw_body"
  /\ io.ReadAll (Body brokenPost) = ("{", Some (io.Err "unexpected EOF"))
  /\ replyStatus (serve brokenPost) = 500
  /\ replyBody (serve brokenPost) = Some ("unexpected EOF" +:+ char LF).
Proof.
  assert (H1 : RequestURI brokenPost <> "*") by discriminate.
  assert (H2 : url.Path (URL brokenPost) = "/raw_body") by reflexivity.
  assert (H3 : io.ReadAll (Body brokenPost) = ("{", Some (io.Err "unexpected EOF")))
    by reflexivity.
  exact (conj H1 (conj H2 (conj H3
           (raw_body_read_failure brokenPost "{" (io.Err "unexpected EOF") H1 H2 H3)))).
Defined.

(** The body of the 500 answer is not the error's text alone. *)
Lemma raw_body_failure_body_is_not_the_error_text :
  io.ReadAll (Body brokenPost) = ("{", Some (io.Err "unexpected EOF"))
  /\ replyBody (serve brokenPost) <> Some (io.Error (io.Err "unexpected EOF")).
Proof. split; [reflexivity|]. vm_compute. discriminate. Qed.




End RouteClaims2.

Section RouteClaims3.

Import http requests.








End RouteClaims3.

(** ** Executions and what each goroutine sees of them *)

Section SchedFacts.

Import sched.

Lemma lrun_snoc (g : Go) (os : list Obs) (g1 : Go) (o : Obs) (g2 : Go) :
  lrun g os g1 -> lstep g1 o g2 -> lrun g (os ++ [o]) g2.
Proof.
  induction 1 as [g | g o' g1' os g1 Hs Hr IH]; intros Hstep; simpl.
  - eapply lrun_cons; [exact Hstep | apply lrun_nil].
  - eapply lrun_cons; [exact Hs | apply IH, Hstep].
Qed.

Lemma proj_app (i : nat) (tr1 tr2 : list Event) :
  proj i (tr1 ++ tr2) = proj i tr1 ++ proj i tr2.
Proof. unfold proj. apply flat_map_app. Qed.

Lemma proj_snoc (i : nat) (tr : list Event) (e : Event) :
  proj i (tr ++ [e]) = proj i tr ++ view i e.
Proof. rewrite proj_app. simpl. now rewrite app_nil_r. Qed.

(** No process step starts from a process that has ended. *)
Lemma step_running (p : Process) (e : Event) (p' : Process) :
  step p e p' -> exists ts, p = Running ts.
Proof. destruct 1; eauto. Qed.

(** Every goroutine of the first state runs, seen from inside, through
    what it sees of the execution. *)
Lemma history (ts0 : list Go) (tr : list Event) (p : Process) :
  exec (Running ts0) tr p ->
  forall i g0, ts0 !! i = Some g0 ->
  exists g, lrun g0 (proj i tr) g /\ forall ts, p = Running ts -> ts !! i = Some g.
Proof.
  induction 1 as [|tr p e p' Hexec IH Hstep]; intros i g0 Hi.
  - exists g0. split; [apply lrun_nil|]. intros ts [= <-]. exact Hi.
  - destruct (IH i g0 Hi) as [g [Hrun Hlook]]. rewrite proj_snoc.
    inversion Hstep as [ts j gj a gj' Hj Hloc | ts j child k Hj
                        | ts s r ch v k k' Hs Hr | ts j msg Hj | ts H0]; subst;
      specialize (Hlook ts eq_refl).
    + (* a goroutine steps on its own *)
      simpl. destruct (decide (i = j)) as [->|Hne].
      * rewrite Hj in Hlook. injection Hlook as <-.
        exists gj'. split; [eapply lrun_snoc; [exact Hrun | now constructor]|].
        intros ts' [= <-]. apply list_lookup_insert_eq. eapply lookup_lt_Some, Hj.
      * exists g. rewrite app_nil_r. split; [exact Hrun|].
        intros ts' [= <-]. rewrite list_lookup_insert_ne by congruence. exact Hlook.
    + (* a goroutine starts another *)
      simpl. destruct (decide (i = j)) as [->|Hne].
      * rewrite Hj in Hlook. injection Hlook as <-.
        exists k. split; [eapply lrun_snoc; [exact Hrun | constructor]|].
        intros ts' [= <-]. rewrite lookup_app_l.
        -- apply list_lookup_insert_eq. eapply lookup_lt_Some, Hj.
        -- rewrite length_insert. eapply lookup_lt_Some, Hj.
      * exists g. rewrite app_nil_r. split; [exact Hrun|].
        intros ts' [= <-]. rewrite lookup_app_l.
        -- rewrite list_lookup_insert_ne by congruence. exact Hlook.
        -- rewrite length_insert. eapply lookup_lt_Some, Hlook.
    + (* hand-off *)
      assert (Hsr : s <> r) by (intros ->; rewrite Hs in Hr; discriminate).
      simpl. destruct (decide (i = s)) as [->|Hns].
      * rewrite Hs in Hlook. injection Hlook as <-.
        exists k. split; [eapply lrun_snoc; [exact Hrun | constructor]|].
        intros ts' [= <-]. rewrite list_lookup_insert_ne by congruence.
        apply list_lookup_insert_eq. eapply lookup_lt_Some, Hs.
      * destruct (decide (i = r)) as [->|Hnr].
        -- rewrite Hr in Hlook. injection Hlook as <-.
           exists (k' v). split; [eapply lrun_snoc; [exact Hrun | constructor]|].
           intros ts' [= <-]. apply list_lookup_insert_eq.
           rewrite length_insert. eapply lookup_lt_Some, Hr.
        -- exists g. rewrite app_nil_r. split; [exact Hrun|].
           intros ts' [= <-].
           rewrite !list_lookup_insert_ne by congruence. exact Hlook.
    + exists g. simpl. rewrite app_nil_r. split; [exact Hrun | discriminate].
    + exists g. simpl. rewrite app_nil_r. split; [exact Hrun | discriminate].
Qed.

(** An execution is a first step and an execution, unless it is empty. *)
Lemma exec_cons (p0 : Process) (e : Event) (p1 : Process) (tr : list Event) (p : Process) :
  step p0 e p1 -> exec p1 tr p -> exec p0 (e :: tr) p.
Proof.
  intros Hstep. induction 1 as [|tr p e' p' Hexec IH Hs].
  - apply (exec_step p0 [] p0 e p1); [apply exec_nil | exact Hstep].
  - change (e :: tr ++ [e']) with ((e :: tr) ++ [e']).
    eapply exec_step; [exact IH | exact Hs].
Qed.

Lemma exec_cons_inv (p0 : Process) (tr : list Event) (p : Process) :
  exec p0 tr p ->
  (tr = [] /\ p = p0)
  \/ exists e p1 tr', tr = e :: tr' /\ step p0 e p1 /\ exec p1 tr' p.
Proof.
  induction 1 as [|tr p e p' Hexec IH Hstep]; [now left|]. right.
  destruct IH as [[-> ->] | [e0 [p1 [tr' [-> [Hs He]]]]]].
  - exists e, p', []. repeat split; [exact Hstep | apply exec_nil].
  - exists e0, p1, (tr' ++ [e]). repeat split; [exact Hs|].
    eapply exec_step; [exact He | exact Hstep].
Qed.

(** An execution through [pre ++ e :: post] passes the step [e]. *)
Lemma exec_app_inv (p0 : Process) (pre : list Event) (e : Event) (post : list Event)
    (p : Process) :
  exec p0 (pre ++ e :: post) p ->
  exists p1 p2, exec p0 pre p1 /\ step p1 e p2 /\ exec p0 (pre ++ [e]) p2.
Proof.
  revert p. induction post as [|x post IH] using rev_ind; intros p H.
  - inversion H as [Hnil | tr p1 e' p' Hexec Hstep Heq]; subst.
    + destruct pre; discriminate.
    + apply app_inj_tail in Heq as [-> ->].
      exists p1, p. repeat split; [exact Hexec | exact Hstep|].
      eapply exec_step; [exact Hexec | exact Hstep].
  - inversion H as [Hnil | tr p1 e' p' Hexec Hstep Heq]; subst.
    + destruct pre; discriminate.
    + replace (pre ++ e :: post ++ [x]) with ((pre ++ e :: post) ++ [x]) in Heq
        by (rewrite <- app_assoc; reflexivity).
      apply app_inj_tail in Heq as [-> ->]. apply (IH p1 Hexec).
Qed.

(** [Holds] goes along a goroutine's run, up to the first skipped
    observation. *)
Lemma Holds_now (P : Go -> Prop) (skip : Obs -> Prop) (g : Go) : Holds P skip g -> P g.
Proof. now destruct 1. Qed.

Lemma Holds_lrun (P : Go -> Prop) (skip : Obs -> Prop) (g : Go) (os : list Obs) (g' : Go) :
  (forall o, skip o \/ ~ skip o) ->
  Holds P skip g -> lrun g os g' -> Holds P skip g' \/ Exists skip os.
Proof.
  intros Hdec Hh Hrun. induction Hrun as [g | g o g1 os g' Hs Hr IH]; [now left|].
  destruct Hh as [g Hp Hnext]. destruct (Hdec o) as [Hskip | Hno].
  - right. now constructor.
  - destruct (IH (Hnext o g1 Hs Hno)) as [H | H]; [now left | right; now constructor].
Qed.

Lemma discarded_dec (o : Obs) : discarded o \/ ~ discarded o.
Proof.
  destruct o as [[| ? ? [l|] | | ? ? ? [] | | |] | | |]; simpl; tauto.
Qed.

Lemma never_dec (o : Obs) : never o \/ ~ never o.
Proof. right. intros []. Qed.

Lemma Holds_never_lrun (P : Go -> Prop) (g : Go) (os : list Obs) (g' : Go) :
  Holds P never g -> lrun g os g' -> P g'.
Proof.
  intros Hh Hrun. destruct (Holds_lrun P never g os g' never_dec Hh Hrun) as [H | H].
  - apply (Holds_now _ _ _ H).
  - apply Exists_exists in H as [o [_ []]].
Qed.

(** What a goroutine saw is in the execution. *)
Lemma proj_Local (i : nat) (a : Action) (tr : list Event) :
  In (OAct a) (proj i tr) -> In (Local i a) tr.
Proof.
  unfold proj. rewrite in_flat_map. intros [e [He Hin]].
  destruct e as [j a' | j c | s r ch v | j msg |]; simpl in Hin;
    repeat case_decide; simpl in Hin; try tauto;
    destruct Hin as [Hin | []]; try discriminate Hin.
  injection Hin as ->. now subst.
Qed.

Lemma proj_Recv (i ch : nat) (v : string) (tr : list Event) :
  In (ORecv ch v) (proj i tr) -> exists s, In (Handoff s i ch v) tr.
Proof.
  unfold proj. rewrite in_flat_map. intros [e [He Hin]].
  destruct e as [j a' | j c | s r ch' v' | j msg |]; simpl in Hin;
    repeat case_decide; simpl in Hin; try tauto;
    destruct Hin as [Hin | []]; try discriminate Hin.
  injection Hin as -> ->. subst. now exists s.
Qed.

End SchedFacts.

(** ** The runs of the driver and of the server goroutine *)

Section OneStep.

Import sched.

Ltac one_step H :=
  inversion H as [| ? ? ? ? ? Hs Hr]; subst; clear H;
  [ left; split; reflexivity
  | right; inversion Hs as [? ? ? Hl | | |]; subst; clear Hs;
    try (inversion Hl; subst; clear Hl); eauto 6 ].

Lemma lrun_Return (os : list Obs) (g : Go) : lrun Return os g -> os = [] /\ g = Return.
Proof.
  intros H. inversion H as [| ? ? ? ? ? Hs Hr]; subst; [now split|].
  inversion Hs as [? ? ? Hl | | |]; subst. inversion Hl.
Qed.

Lemma lrun_Panic (msg : string) (os : list Obs) (g : Go) :
  lrun (Panic msg) os g -> os = [] /\ g = Panic msg.
Proof.
  intros H. inversion H as [| ? ? ? ? ? Hs Hr]; subst; [now split|].
  inversion Hs as [? ? ? Hl | | |]; subst. inversion Hl.
Qed.

Lemma lrun_Print (text : string) (k : Go) (os : list Obs) (g : Go) :
  lrun (Print text k) os g ->
  (os = [] /\ g = Print text k)
  \/ exists os', os = OAct (APrint text) :: os' /\ lrun k os' g.
Proof. intros H. one_step H. Qed.

Lemma lrun_Close (k : Go) (os : list Obs) (g : Go) :
  lrun (Close k) os g ->
  (os = [] /\ g = Close k)
  \/ exists os', os = OAct AClose :: os' /\ lrun k os' g.
Proof. intros H. one_step H. Qed.

Lemma lrun_Recv (ch : nat) (k : string -> Go) (os : list Obs) (g : Go) :
  lrun (Recv ch k) os g ->
  (os = [] /\ g = Recv ch k)
  \/ exists v os', os = ORecv ch v :: os' /\ lrun (k v) os' g.
Proof. intros H. one_step H. Qed.

Lemma lrun_Send (ch : nat) (v : string) (k : Go) (os : list Obs) (g : Go) :
  lrun (Send ch v k) os g ->
  (os = [] /\ g = Send ch v k)
  \/ exists os', os = OSend ch v :: os' /\ lrun k os' g.
Proof. intros H. one_step H. Qed.

Lemma lrun_Listen (network address : string) (k : option net.Listener -> Go)
    (os : list Obs) (g : Go) :
  lrun (Listen network address k) os g ->
  (os = [] /\ g = Listen network address k)
  \/ exists l os', os = OAct (AListen network address l) :: os' /\ lrun (k l) os' g.
Proof. intros H. one_step H. Qed.

Lemma lrun_Serve (mux : http.ServeMux) (l : net.Listener) (k : Go) (os : list Obs) (g : Go) :
  lrun (Serve mux l k) os g ->
  (os = [] /\ g = Serve mux l k)
  \/ exists os', os = OAct AServeReturn :: os' /\ lrun k os' g.
Proof. intros H. one_step H. Qed.

Lemma lrun_Get (url : string) (k : script.Result -> Go) (os : list Obs) (g : Go) :
  lrun (Get url k) os g ->
  (os = [] /\ g = Get url k)
  \/ exists res os', os = OAct (AGet url res) :: os' /\ lrun (k res) os' g.
Proof. intros H. one_step H. Qed.

Lemma lrun_Do (c : client.Client) (req : client.Request) (k : script.Result -> Go)
    (os : list Obs) (g : Go) :
  lrun (Do c req k) os g ->
  (os = [] /\ g = Do c req k)
  \/ exists res os', os = OAct (ADo c req res) :: os' /\ lrun (k res) os' g.
Proof. intros H. one_step H. Qed.

Lemma lrun_NewRequest (method url : string) (body : option string)
    (k : option client.Request -> Go) (os : list Obs) (g : Go) :
  lrun (NewRequest method url body k) os g ->
  (os = [] /\ g = NewRequest method url body k)
  \/ (exists os', os = OAct (ANewRequest method url body true) :: os'
                  /\ lrun (k (Some (client.newRequest method url body))) os' g)
  \/ (exists os', os = OAct (ANewRequest method url body false) :: os'
                  /\ lrun (k None) os' g).
Proof.
  intros H. inversion H as [| ? ? ? ? ? Hs Hr]; subst; clear H; [now left|].
  right. inversion Hs as [? ? ? Hl | | |]; subst; clear Hs.
  inversion Hl; subst; clear Hl; eauto.
Qed.

End OneStep.

Section DriverRuns.

Import sched script requests.

(** After a call has got its result [res]: the result line, then the
    deferred close when there is a body. *)
Lemma lrun_afterCall (label : string) (res : Result) (ret : Go) (os : list Obs) (g : Go) :
  lrun (match res with
        | inr err => Print (errorHappend err) ret
        | inl resp =>
            let '(respBody, err) := io.ReadAll (client.RespBody resp) in
            Print (label +:+ strconv.Quote respBody +:+ LF3) (Close ret)
        end) os g ->
  through (OAct (APrint (resultText label res)) :: closing res) ret os g.
Proof.
  intros H. destruct res as [resp | err]; cbn [io.ReadAll] in H.
  - apply lrun_Print in H as [[-> ->] | [os1 [-> H]]]; [left; apply prefix_nil|].
    apply lrun_Close in H as [[-> ->] | [os2 [-> H]]].
    + left. apply prefix_cons, prefix_nil.
    + right. exists os2. split; [reflexivity | exact H].
  - apply lrun_Print in H as [[-> ->] | [os1 [-> H]]]; [left; apply prefix_nil|].
    right. exists os1. split; [reflexivity | exact H].
Qed.

Lemma through_cons (o : Obs) (full : list Obs) (ret : Go) (os : list Obs) (g : Go) :
  through full ret os g -> through (o :: full) ret (o :: os) g.
Proof.
  intros [H | [os' [-> H]]]; [left; now apply prefix_cons|].
  right. now exists os'.
Qed.

Lemma runGet_through (serverURL : string) (ret : Go) (os : list Obs) (g : Go) :
  lrun (runGet serverURL ret) os g ->
  exists res, through (call1 serverURL res) ret os g.
Proof.
  intros H. unfold runGet in H.
  apply lrun_Get in H as [[-> ->] | [res [os1 [-> H]]]].
  - exists noResult. left. apply prefix_nil.
  - exists res. apply through_cons, lrun_afterCall, H.
Qed.

Lemma runGetFullReq_through (serverURL : string) (ret : Go) (os : list Obs) (g : Go) :
  lrun (runGetFullReq serverURL ret) os g ->
  exists ok res,
    os `prefix_of` call2 serverURL ok res
    \/ (ok = true /\ through (call2 serverURL true res) ret os g).
Proof.
  intros H. unfold runGetFullReq in H.
  apply lrun_NewRequest in H as [[-> ->] | [[os1 [-> H]] | [os1 [-> H]]]].
  - exists true, noResult. left. apply prefix_nil.
  - apply lrun_Do in H as [[-> ->] | [res [os2 [-> H]]]].
    + exists true, noResult. left. apply prefix_cons, prefix_nil.
    + exists true, res. right. split; [reflexivity|].
      apply through_cons, through_cons, lrun_afterCall, H.
  - apply lrun_Panic in H as [-> ->]. exists false, noResult. left. reflexivity.
Qed.

Lemma runTransportAndPost_through (serverURL : string) (ret : Go) (os : list Obs) (g : Go) :
  lrun (runTransportAndPost serverURL ret) os g ->
  exists ok res,
    os `prefix_of` call3 serverURL ok res
    \/ (ok = true /\ through (call3 serverURL true res) ret os g).
Proof.
  intros H. unfold runTransportAndPost in H.
  apply lrun_NewRequest in H as [[-> ->] | [[os1 [-> H]] | [os1 [-> H]]]].
  - exists true, noResult. left. apply prefix_nil.
  - apply lrun_Do in H as [[-> ->] | [res [os2 [-> H]]]].
    + exists true, noResult. left. apply prefix_cons, prefix_nil.
    + exists true, res. right. split; [reflexivity|].
      apply through_cons, through_cons, lrun_afterCall, H.
  - apply lrun_Panic in H as [-> ->]. exists false, noResult. left. reflexivity.
Qed.

(** Every run of [main] after its [go] statement is a piece, from the start,
    of the driver's script for some answers. *)
Lemma afterGo_script (os : list Obs) (g : Go) :
  lrun afterGo os g -> exists ans, OSpawn :: os `prefix_of` driver ans.
Proof.
  intros H. unfold afterGo in H.
  apply lrun_Recv in H as [[-> ->] | [a [os1 [-> H]]]].
  { exists (Build_Answers "" noResult true noResult true noResult).
    apply prefix_cons, prefix_nil. }
  apply lrun_Print in H as [[-> ->] | [os2 [-> H]]].
  { exists (Build_Answers a noResult true noResult true noResult).
    apply prefix_cons, prefix_cons, prefix_nil. }
  apply runGet_through in H as [r1 [H | [os3 [-> H]]]].
  { exists (Build_Answers a r1 true noResult true noResult).
    unfold driver; cbn [address res1 ok2 res2 ok3 res3].
    do 3 apply prefix_cons. now apply prefix_app_r. }
  apply runGetFullReq_through in H as [k2 [r2 [H | [-> [H | [os4 [-> H]]]]]]].
  { exists (Build_Answers a r1 k2 r2 true noResult).
    unfold driver; cbn [address res1 ok2 res2 ok3 res3].
    do 3 apply prefix_cons. apply prefix_app. now apply prefix_app_r. }
  { exists (Build_Answers a r1 true r2 true noResult).
    unfold driver; cbn [address res1 ok2 res2 ok3 res3].
    do 3 apply prefix_cons. apply prefix_app. now apply prefix_app_r. }
  apply runTransportAndPost_through in H as [k3 [r3 [H | [-> [H | [os5 [-> H]]]]]]].
  { exists (Build_Answers a r1 true r2 k3 r3).
    unfold driver; cbn [address res1 ok2 res2 ok3 res3].
    do 3 apply prefix_cons. apply prefix_app, prefix_app. exact H. }
  { exists (Build_Answers a r1 true r2 true r3).
    unfold driver; cbn [address res1 ok2 res2 ok3 res3].
    do 3 apply prefix_cons. apply prefix_app, prefix_app. exact H. }
  apply lrun_Return in H as [-> ->].
  exists (Build_Answers a r1 true r2 true r3).
  unfold driver; cbn [address res1 ok2 res2 ok3 res3].
  do 3 apply prefix_cons. rewrite app_nil_r. reflexivity.
Qed.

(** The runs of the server goroutine. *)
Lemma startServer_script (os : list Obs) (g : Go) :
  lrun (startServer addr) os g ->
  os `prefix_of` [OAct (AListen "tcp" ":0" None)]
  \/ exists l, os `prefix_of` script.server l.
Proof.
  intros H. unfold startServer in H.
  apply lrun_Listen in H as [[-> ->] | [l [os1 [-> H]]]]; [left; apply prefix_nil|].
  destruct l as [l|].
  - right. exists l. unfold script.server. apply prefix_cons.
    apply lrun_Send in H as [[-> ->] | [os2 [-> H]]]; [apply prefix_nil|].
    apply prefix_cons.
    apply lrun_Serve in H as [[-> ->] | [os3 [-> H]]]; [apply prefix_nil|].
    apply lrun_Return in H as [-> ->]. reflexivity.
  - left. apply lrun_Panic in H as [-> ->]. reflexivity.
Qed.

(** The server goroutine stands at the [Send] only after [Listen] has
    returned a listener, and sends that listener's address on [addr]. *)
Lemma startServer_at_Send (os : list Obs) (ch : nat) (v : string) (k : Go) :
  lrun (startServer addr) os (Send ch v k) ->
  exists l, os = [OAct (AListen "tcp" ":0" (Some l))] /\ ch = addr /\ v = net.Addr l.
Proof.
  intros H. unfold startServer in H.
  apply lrun_Listen in H as [[_ H] | [l [os1 [-> H]]]]; [discriminate H|].
  destruct l as [l|].
  - apply lrun_Send in H as [[-> H] | [os2 [-> H]]].
    + injection H as -> -> ->. now exists l.
    + apply lrun_Serve in H as [[_ H] | [os3 [-> H]]]; [discriminate H|].
      apply lrun_Return in H as [_ H]. discriminate H.
  - apply lrun_Panic in H as [_ H]. discriminate H.
Qed.

End DriverRuns.

Section ProgramShape.

Import sched script requests.

Ltac holds_step :=
  constructor;
  [ exact I
  | let o := fresh "o" in
    let g' := fresh "g" in
    let Hs := fresh "Hs" in
    let Hk := fresh "Hk" in
    intros o g' Hs Hk;
    inversion Hs as [? ? ? Hl | | |]; subst; clear Hs;
    try (inversion Hl; subst; clear Hl);
    cbv beta;
    repeat match goal with
           | |- Holds _ _ (match ?x with _ => _ end) => destruct x
           end;
    try (exfalso; apply Hk; exact I);
    clear Hk; cbn [io.ReadAll] ].

Ltac holds := repeat holds_step.

Lemma afterGo_Guarded : Guarded afterGo.
Proof.
  unfold Guarded, afterGo, runGet, runGetFullReq, runTransportAndPost. holds.
Qed.

Lemma startServer_Guarded : Guarded (startServer addr).
Proof. unfold Guarded, startServer. holds. Qed.

Lemma afterGo_SpawnFree : SpawnFree afterGo.
Proof.
  unfold SpawnFree, afterGo, runGet, runGetFullReq, runTransportAndPost. holds.
Qed.

Lemma startServer_SpawnFree : SpawnFree (startServer addr).
Proof. unfold SpawnFree, startServer. holds. Qed.

Lemma afterGo_noSend : Holds noSend never afterGo.
Proof. unfold afterGo, runGet, runGetFullReq, runTransportAndPost. holds. Qed.

Lemma startServer_noRecv : Holds noRecv never (startServer addr).
Proof. unfold startServer. holds. Qed.

End ProgramShape.

(** ** The executions of [main] *)

Section MainRuns.

Import sched script requests.

(** The first step of the process is the [go] statement of [main]. *)
Lemma main_first_step (e : Event) (p : Process) :
  step (Running [main]) e p -> e = Spawn 0 1 /\ p = started.
Proof.
  intros H.
  inversion H as [ts i g a g' Hi Hloc | ts i child k Hi
                  | ts s r ch v k k' Hs Hr | ts i msg Hi | ts H0]; subst.
  - destruct i as [|i]; [|destruct i; discriminate Hi].
    injection Hi as <-. inversion Hloc.
  - destruct i as [|i]; [|destruct i; discriminate Hi].
    injection Hi as <- <-. now split.
  - destruct s as [|s]; [|destruct s; discriminate Hs]. discriminate Hs.
  - destruct i as [|i]; [|destruct i; discriminate Hi]. discriminate Hi.
  - discriminate H0.
Qed.

Lemma exec_main_inv (tr : list Event) (p : Process) :
  exec (Running [main]) tr p ->
  (tr = [] /\ p = Running [main])
  \/ exists tr', tr = Spawn 0 1 :: tr' /\ exec started tr' p.
Proof.
  intros H. apply exec_cons_inv in H as [H | [e [p1 [tr' [-> [Hs He]]]]]]; [now left|].
  apply main_first_step in Hs as [-> ->]. right. now exists tr'.
Qed.

(** No goroutine is started after the first step. *)
Lemma exec_length (ts0 : list Go) (tr : list Event) (p : Process) :
  Forall SpawnFree ts0 ->
  exec (Running ts0) tr p ->
  forall ts, p = Running ts -> length ts = length ts0.
Proof.
  intros Hfree. induction 1 as [|tr p e p' Hexec IH Hstep]; intros ts' Hp.
  - now injection Hp as <-.
  - subst p'.
    inversion Hstep as [ts i g a g' Hi Hloc | ts i child k Hi
                        | ts s r ch v k k' Hs Hr | ts i msg Hi | ts H0]; subst;
      specialize (IH ts eq_refl).
    + now rewrite length_insert.
    + exfalso.
      assert (Hlt : i < length ts0) by (rewrite <- IH; eapply lookup_lt_Some, Hi).
      destruct (lookup_lt_is_Some_2 ts0 i Hlt) as [g0 Hg0].
      destruct (history ts0 tr (Running ts) Hexec i g0 Hg0) as [g [Hrun Hlook]].
      rewrite (Hlook ts eq_refl) in Hi. injection Hi as ->.
      rewrite Forall_forall in Hfree.
      apply (Holds_never_lrun noSpawn g0 _ _ (Hfree g0 (list_elem_of_lookup_2 _ _ _ Hg0)) Hrun).
    + now rewrite !length_insert.
Qed.

Lemma started_SpawnFree : Forall SpawnFree [afterGo; startServer addr].
Proof.
  constructor; [apply afterGo_SpawnFree|].
  constructor; [apply startServer_SpawnFree | constructor].
Qed.

(** After the first step there are two goroutines: [main] and the server. *)
Lemma started_threads (tr : list Event) (ts : list Go) (i : nat) (g : Go) :
  exec started tr (Running ts) ->
  ts !! i = Some g ->
  (i = 0 /\ lrun afterGo (proj 0 tr) g)
  \/ (i = 1 /\ lrun (startServer addr) (proj 1 tr) g).
Proof.
  intros Hexec Hi.
  pose proof (exec_length _ _ _ started_SpawnFree Hexec ts eq_refl) as Hlen.
  apply lookup_lt_Some in Hi as Hlt. rewrite Hlen in Hlt. simpl in Hlt.
  destruct i as [|[|i]]; [left | right | lia].
  - destruct (history _ _ _ Hexec 0 afterGo eq_refl) as [g' [Hrun Hlook]].
    rewrite (Hlook ts eq_refl) in Hi. injection Hi as ->. now split.
  - destruct (history _ _ _ Hexec 1 (startServer addr) eq_refl) as [g' [Hrun Hlook]].
    rewrite (Hlook ts eq_refl) in Hi. injection Hi as ->. now split.
Qed.

(** What [main] sees of any execution is a piece, from the start, of the
    driver's script. *)
Lemma main_script (tr : list Event) (p : Process) :
  exec (Running [main]) tr p -> exists ans, proj 0 tr `prefix_of` driver ans.
Proof.
  intros H. apply exec_main_inv in H as [[-> _] | [tr' [-> H]]].
  - exists (Build_Answers "" noResult true noResult true noResult). apply prefix_nil.
  - destruct (history _ _ _ H 0 afterGo eq_refl) as [g [Hrun _]].
    apply afterGo_script in Hrun. exact Hrun.
Qed.

End MainRuns.

Section MainOrder.

Import sched script requests.

(** Every hand-off goes from the server goroutine to [main] on [addr], and
    carries the address of the listener that [Listen] has returned. *)
Lemma handoff_is_bound_address (tr : list Event) (p : Process)
    (pre : list Event) (s r ch : nat) (v : string) (post : list Event) :
  exec (Running [main]) tr p ->
  tr = pre ++ Handoff s r ch v :: post ->
  s = 1 /\ r = 0 /\ ch = addr
  /\ exists l, In (Local 1 (AListen "tcp" ":0" (Some l))) pre /\ v = net.Addr l.
Proof.
  intros Hexec ->.
  apply exec_main_inv in Hexec as [[H _] | [tr' [Htr Hexec]]];
    [destruct pre; discriminate H|].
  destruct pre as [|e0 pre]; [discriminate Htr|]. injection Htr as -> <-.
  apply exec_app_inv in Hexec as [p1 [p2 [Hpre [Hstep _]]]].
  inversion Hstep as [| | ts i j ch' v' k k' Hs Hr | |]; subst.
  destruct (started_threads _ _ _ _ Hpre Hs) as [[-> Hrun] | [-> Hrun]].
  { exfalso. apply (Holds_never_lrun noSend _ _ _ afterGo_noSend Hrun). }
  destruct (started_threads _ _ _ _ Hpre Hr) as [[-> Hrun'] | [-> Hrun']].
  2:{ exfalso. apply (Holds_never_lrun noRecv _ _ _ startServer_noRecv Hrun'). }
  apply startServer_at_Send in Hrun as [l [Hobs [-> ->]]].
  repeat split. exists l. split; [|reflexivity].
  right. apply proj_Local. rewrite Hobs. now left.
Qed.

(** Before a client call of the driver, [main] has received the address. *)
Lemma call_after_handoff (tr : list Event) (p : Process)
    (pre : list Event) (e : Event) (post : list Event) :
  exec (Running [main]) tr p ->
  tr = pre ++ e :: post ->
  isCall e ->
  exists s v, In (Handoff s 0 addr v) pre.
Proof.
  intros Hexec -> Hcall.
  apply exec_app_inv in Hexec as [p1 [p2 [_ [_ Hexec]]]].
  apply main_script in Hexec as [ans Hpre]. rewrite proj_snoc in Hpre.
  assert (Hview : exists a, view 0 e = [OAct a]
                            /\ (forall text, a <> APrint text)).
  { destruct e as [[|i] a | | | |]; try contradiction.
    destruct a; try contradiction; eexists; (split; [reflexivity | discriminate]). }
  destruct Hview as [a [Hv Hnp]]. rewrite Hv in Hpre. unfold driver in Hpre.
  destruct (proj 0 pre) as [|o1 [|o2 os]] eqn:Hproj; simpl in Hpre.
  - apply prefix_cons_inv_1 in Hpre. discriminate Hpre.
  - apply prefix_cons_inv_2, prefix_cons_inv_1 in Hpre. discriminate Hpre.
  - apply prefix_cons_inv_2, prefix_cons_inv_1 in Hpre. subst o2.
    destruct (proj_Recv 0 addr (address ans) pre) as [s Hs];
      [rewrite Hproj; right; now left|].
    now exists s, (address ans).
Qed.

(** X1. In every execution of [main]: what [main] does is a piece, from the
    start, of the driver's script (the [go] statement, the receipt of the
    address, the start line, then the simple GET, the GET with the header and
    the POST, each followed by the line it prints); the address handed over
    is the one of the listener the server got, sent by the server goroutine
    after [Listen]; and every client call comes after that hand-off. *)
Theorem main_order (tr : list Event) (p : Process) :
  exec (Running [main]) tr p ->
  (exists ans, proj 0 tr `prefix_of` driver ans)
  /\ (forall pre s r ch v post,
         tr = pre ++ Handoff s r ch v :: post ->
         s = 1 /\ r = 0 /\ ch = addr
         /\ exists l, In (Local 1 (AListen "tcp" ":0" (Some l))) pre /\ v = net.Addr l)
  /\ (forall pre e post,
         tr = pre ++ e :: post -> isCall e ->
         exists s v, In (Handoff s 0 addr v) pre).
Proof.
  intros Hexec. split; [apply (main_script tr p Hexec)|]. split.
  - intros pre s r ch v post Htr.
    apply (handoff_is_bound_address tr p pre s r ch v post Hexec Htr).
  - intros pre e post Htr Hcall.
    apply (call_after_handoff tr p pre e post Hexec Htr Hcall).
Qed.

End MainOrder.

Section Completion.

Import sched script requests.

Ltac run_step :=
  eapply exec_cons;
  [ first [ eapply step_local; [reflexivity | constructor]
          | eapply step_go; reflexivity
          | eapply step_handoff; reflexivity
          | eapply step_exit; reflexivity ]
  | cbn [insert list_insert app length] ].

Lemma fullRun_exec (l : net.Listener) (r1 r2 r3 : Result) :
  exec (Running [main]) (fullRun l (answers l r1 r2 r3)) Exited.
Proof.
  destruct r1 as [resp1 | e1], r2 as [resp2 | e2], r3 as [resp3 | e3];
    cbv [fullRun answers driver call1 call2 call3 closing flat_map asEvent app
         address res1 ok2 res2 ok3 res3];
    unfold main, startServer;
    repeat run_step; apply exec_nil.
Qed.

Lemma fullRun_proj (l : net.Listener) (r1 r2 r3 : Result) :
  proj 0 (fullRun l (answers l r1 r2 r3)) = driver (answers l r1 r2 r3).
Proof.
  destruct r1 as [resp1 | e1], r2 as [resp2 | e2], r3 as [resp3 | e3]; reflexivity.
Qed.

(** X2. Whatever the three calls return, an error or a response, [main] goes
    through all of them and returns: with a listener and with both requests
    built, there is an execution that ends with the exit of the process and in
    which [main] does the whole of the driver's script. *)
Theorem main_runs_to_completion (l : net.Listener) (r1 r2 r3 : Result) :
  exec (Running [main]) (fullRun l (answers l r1 r2 r3)) Exited
  /\ proj 0 (fullRun l (answers l r1 r2 r3)) = driver (answers l r1 r2 r3).
Proof. split; [apply fullRun_exec | apply fullRun_proj]. Qed.

End Completion.

Section MainOrderWitness.

Import sched script requests.

Lemma main_order_witness :
  exec (Running [main]) (fullRun someListener allRefused) Exited
  /\ ((exists ans, proj 0 (fullRun someListener allRefused) `prefix_of` driver ans)
      /\ (forall pre s r ch v post,
             fullRun someListener allRefused = pre ++ Handoff s r ch v :: post ->
             s = 1 /\ r = 0 /\ ch = addr
             /\ exists l, In (Local 1 (AListen "tcp" ":0" (Some l))) pre /\ v = net.Addr l)
      /\ (forall pre e post,
             fullRun someListener allRefused = pre ++ e :: post -> isCall e ->
             exists s v, In (Handoff s 0 addr v) pre)).
Proof.
  pose proof (fullRun_exec someListener (inr refused) (inr refused) (inr refused)) as H.
  exact (conj H (main_order (fullRun someListener allRefused) Exited H)).
Defined.

End MainOrderWitness.

(** ** What follows a call *)

Section AfterCall.

Import sched script requests.

Lemma exec_split (p0 : Process) (pre post : list Event) (p : Process) :
  exec p0 (pre ++ post) p -> exists pm, exec p0 pre pm /\ exec pm post p.
Proof.
  revert p. induction post as [|x post IH] using rev_ind; intros p H.
  - rewrite app_nil_r in H. exists p. split; [exact H | apply exec_nil].
  - rewrite app_assoc in H.
    inversion H as [Hnil | tr p1 e p' Hexec Hstep Heq]; subst.
    + destruct pre, post; discriminate.
    + apply app_inj_tail in Heq as [-> ->].
      destruct (IH p1 Hexec) as [pm [Hpre Hpost]].
      exists pm. split; [exact Hpre|]. eapply exec_step; [exact Hpost | exact Hstep].
Qed.

Ltac shape_with label :=
  exists label; eexists; split;
  [ | let res := fresh "res" in intros res; destruct res; reflexivity ];
  split; [reflexivity | exact I].

Ltac shape_step :=
  constructor;
  [ first [ exact I
          | shape_with "http.Get body "
          | shape_with "testGetFullReq resp "
          | shape_with "runTransport " ]
  | let o := fresh "o" in
    let g' := fresh "g" in
    let Hs := fresh "Hs" in
    let Hk := fresh "Hk" in
    intros o g' Hs Hk;
    inversion Hs as [? ? ? Hl | | |]; subst; clear Hs;
    try (inversion Hl; subst; clear Hl);
    clear Hk; cbv beta;
    repeat match goal with
           | |- Holds _ _ (match ?x with _ => _ end) => destruct x
           end;
    cbn [io.ReadAll] ].

Lemma afterGo_callShape : Holds callShape never afterGo.
Proof.
  unfold afterGo, runGet, runGetFullReq, runTransportAndPost. repeat shape_step.
Qed.

(** After a call of the driver has returned [res], [main] goes on as the
    call's continuation for [res], which has the shape of [callShape]. *)
Lemma after_call (tr : list Event) (p : Process) (pre : list Event) (a : Action)
    (post : list Event) (res : Result) :
  exec (Running [main]) tr p ->
  tr = pre ++ Local 0 a :: post ->
  callResult a = Some res ->
  exists label ret g' gfin,
    count LF label = 0 /\ nextStart ret
    /\ g' = match res with
            | inr err => Print (errorHappend err) ret
            | inl resp =>
                Print (label +:+ strconv.Quote (io.data (client.RespBody resp)) +:+ LF3)
                      (Close ret)
            end
    /\ lrun g' (proj 0 post) gfin.
Proof.
  intros Hexec -> Hres.
  change (pre ++ Local 0 a :: post) with (pre ++ [Local 0 a] ++ post) in Hexec.
  rewrite app_assoc in Hexec.
  apply exec_split in Hexec as [pm [Hpre Hpost]].
  inversion Hpre as [Hnil | tr0 p1 e p' Hexec Hstep Heq]; subst;
    [destruct pre; discriminate|].
  apply app_inj_tail in Heq as [-> ->].
  inversion Hstep as [ts i g a' g1 Hi Hloc | | | |]; subst.
  apply exec_main_inv in Hexec as [[-> [= ->]] | [tr' [-> Hexec]]].
  { injection Hi as <-. inversion Hloc. }
  destruct (started_threads _ _ _ _ Hexec Hi) as [[_ Hrun] | [[=] _]].
  pose proof (Holds_never_lrun callShape _ _ _ afterGo_callShape Hrun) as Hshape.
  assert (Hg1 : exists label ret,
             (count LF label = 0 /\ nextStart ret)
             /\ g1 = match res with
                     | inr err => Print (errorHappend err) ret
                     | inl resp =>
                         Print (label +:+ strconv.Quote (io.data (client.RespBody resp))
                                      +:+ LF3) (Close ret)
                     end).
  { inversion Hloc; subst; try discriminate Hres; injection Hres as ->;
      destruct Hshape as [label [ret [Hlr Hk]]]; exists label, ret;
      (split; [exact Hlr | apply Hk]). }
  destruct Hg1 as [label [ret [[Hlabel Hret] Hg1]]].
  destruct (history _ _ _ Hpost 0 g1) as [gfin [Hrun' _]].
  { apply list_lookup_insert_eq. eapply lookup_lt_Some, Hi. }
  exists label, ret, g1, gfin. repeat split; assumption.
Qed.

(** The start of the next call, or the end of [main]. *)
Lemma lrun_nextStart (ret : Go) (os : list Obs) (g : Go) :
  nextStart ret -> lrun ret os g ->
  os = [] \/ exists method url body ok os', os = OAct (ANewRequest method url body ok) :: os'.
Proof.
  intros Hret Hrun. destruct ret; try contradiction.
  - apply lrun_Return in Hrun as [-> _]. now left.
  - apply lrun_NewRequest in Hrun as [[-> _] | [[os' [-> _]] | [os' [-> _]]]];
      [now left | right; eauto 6 | right; eauto 6].
Qed.

(** X3. When a call of the driver returns a transport error, the next thing
    [main] does is print [error happend], the error's text and a newline, and
    the next thing after that is to build the request of the next call: no
    body is printed or closed in between. *)
Theorem transport_error_then_next_call (tr : list Event) (p : Process)
    (pre : list Event) (a : Action) (post : list Event) (err : io.error) :
  exec (Running [main]) tr p ->
  tr = pre ++ Local 0 a :: post ->
  callResult a = Some (inr err) ->
  proj 0 post = []
  \/ exists os,
       proj 0 post
       = OAct (APrint ("error happend " +:+ io.Error err +:+ char LF)) :: os
       /\ (os = []
           \/ exists method url body ok os',
                os = OAct (ANewRequest method url body ok) :: os').
Proof.
  intros Hexec Htr Hres.
  destruct (after_call tr p pre a post (inr err) Hexec Htr Hres)
    as [label [ret [g' [gfin [_ [Hret [-> Hrun]]]]]]].
  apply lrun_Print in Hrun as [[-> _] | [os [-> Hrun]]]; [now left|].
  right. exists os. split; [reflexivity|]. apply (lrun_nextStart ret os gfin Hret Hrun).
Qed.


End AfterCall.

Section AfterCallWitnesses.

Import sched script requests.

Lemma transport_error_then_next_call_witness :
  exec (Running [main]) (fullRun someListener allRefused) Exited
  /\ fullRun someListener allRefused
     = take 4 (fullRun someListener allRefused)
       ++ Local 0 (AGet get1 (inr refused)) :: drop 5 (fullRun someListener allRefused)
  /\ callResult (AGet get1 (inr refused)) = Some (inr refused)
  /\ (proj 0 (drop 5 (fullRun someListener allRefused)) = []
      \/ exists os,
           proj 0 (drop 5 (fullRun someListener allRefused))
           = OAct (APrint ("error happend " +:+ io.Error refused +:+ char LF)) :: os
           /\ (os = []
               \/ exists method url body ok os',
                    os = OAct (ANewRequest method url body ok) :: os')).
Proof.
  pose proof (fullRun_exec someListener (inr refused) (inr refused) (inr refused)) as H.
  exact (conj H (conj eq_refl (conj eq_refl
           (transport_error_then_next_call
              (fullRun someListener allRefused) Exited
              (take 4 (fullRun someListener allRefused))
              (AGet get1 (inr refused))
              (drop 5 (fullRun someListener allRefused))
              refused H eq_refl eq_refl)))).
Defined.


End AfterCallWitnesses.

(** ** Discarded errors *)

Section Discarded.

Import sched script requests.

Ltac nil_step :=
  constructor;
  [ first [exact I | reflexivity]
  | let o := fresh "o" in
    let g' := fresh "g" in
    let Hs := fresh "Hs" in
    let Hk := fresh "Hk" in
    intros o g' Hs Hk;
    inversion Hs as [? ? ? Hl | | |]; subst; clear Hs;
    try (inversion Hl; subst; clear Hl);
    clear Hk; cbv beta;
    repeat match goal with
           | |- Holds _ _ (match ?x with _ => _ end) => destruct x
           end;
    cbn [io.ReadAll] ].

Lemma afterGo_panicIsNil : Holds panicIsNil never afterGo.
Proof. unfold afterGo, runGet, runGetFullReq, runTransportAndPost. repeat nil_step. Qed.

Lemma startServer_panicIsNil : Holds panicIsNil never (startServer addr).
Proof. unfold startServer. repeat nil_step. Qed.

Lemma Local_proj (i : nat) (a : Action) (tr : list Event) :
  In (Local i a) tr -> In (OAct a) (proj i tr).
Proof.
  intros H. unfold proj. apply in_flat_map. exists (Local i a). split; [exact H|].
  simpl. case_decide; [now left | congruence].
Qed.

Lemma Handoff_proj (s r ch : nat) (v : string) (tr : list Event) :
  In (Handoff s r ch v) tr -> In (OSend ch v) (proj s tr).
Proof.
  intros H. unfold proj. apply in_flat_map. exists (Handoff s r ch v).
  split; [exact H|]. simpl. case_decide; [now left | congruence].
Qed.

(** X5. The process ends in a panic only when [net.Listen] or [http.NewRequest]
    has returned nil, the error being discarded, and the panic is then the
    nil dereference: no result of a client call, transport error or response,
    makes the process crash. *)
Theorem crash_only_after_nil (tr : list Event) (msg : string) :
  exec (Running [main]) tr (Crashed msg) ->
  msg = nilDereference
  /\ exists i a, In (Local i a) tr /\ discarded (OAct a).
Proof.
  intros Hexec.
  inversion Hexec as [Hnil | tr0 p1 e p' Hpre Hstep Heq]; subst.
  inversion Hstep as [| | | ts i msg' Hi |]; subst.
  apply exec_main_inv in Hpre as [[-> [= ->]] | [tr' [-> Hpre]]].
  { destruct i as [|[|i]]; discriminate Hi. }
  assert (Hcase : exists g0, Guarded g0 /\ Holds panicIsNil never g0
                             /\ lrun g0 (proj i tr') (Panic msg)).
  { destruct (started_threads _ _ _ _ Hpre Hi) as [[-> Hrun] | [-> Hrun]].
    - exists afterGo. split; [apply afterGo_Guarded|]. split; [apply afterGo_panicIsNil|].
      exact Hrun.
    - exists (startServer addr). split; [apply startServer_Guarded|].
      split; [apply startServer_panicIsNil | exact Hrun]. }
  destruct Hcase as [g0 [Hguard [Hnil Hrun]]]. split.
  - apply (Holds_never_lrun panicIsNil g0 _ _ Hnil Hrun).
  - destruct (Holds_lrun noPanic discarded g0 _ _ discarded_dec Hguard Hrun) as [H | H].
    + destruct (Holds_now _ _ _ H).
    + apply Exists_exists in H as [o [Hin Hd]].
      apply list_elem_of_In in Hin.
      destruct o as [a | | |]; try contradiction.
      exists i, a. split; [|exact Hd].
      apply in_or_app. left. right. apply proj_Local, Hin.
Qed.

Lemma bindFailure_exec : exec (Running [main]) bindFailure (Crashed nilDereference).
Proof.
  unfold bindFailure, main, startServer.
  eapply exec_cons; [eapply step_go; reflexivity|].
  eapply exec_cons; [eapply step_local; [reflexivity | constructor]|].
  eapply exec_cons; [eapply (step_panic _ 1); reflexivity|].
  apply exec_nil.
Qed.

Lemma crash_only_after_nil_witness :
  exec (Running [main]) bindFailure (Crashed nilDereference)
  /\ nilDereference = nilDereference
  /\ exists i a, In (Local i a) bindFailure /\ discarded (OAct a).
Proof.
  exact (conj bindFailure_exec (crash_only_after_nil bindFailure nilDereference
                                  bindFailure_exec)).
Defined.

End Discarded.

Section BindFailure.

Import sched script requests.

Lemma prefix_In {A : Type} (l1 l2 : list A) (x : A) :
  l1 `prefix_of` l2 -> In x l1 -> In x l2.
Proof. intros [k ->] H. apply in_or_app. now left. Qed.

(** X6. When the server does not get a listener, there is no hand-off: [main]
    does nothing after its [go] statement, so nothing is printed and no call
    is made, and [main] does not return. The process can then only end in the
    panic of the server goroutine, and it can. *)
Theorem bind_failure_stops_everything :
  (forall (tr : list Event) (p : Process),
      exec (Running [main]) tr p ->
      In (Local 1 (AListen "tcp" ":0" None)) tr ->
      proj 0 tr = [OSpawn]
      /\ (forall s r ch v, ~ In (Handoff s r ch v) tr)
      /\ p <> Exited)
  /\ exec (Running [main]) bindFailure (Crashed nilDereference).
Proof.
  split; [|apply bindFailure_exec].
  intros tr p Hexec Hfail.
  assert (Hno : forall s r ch v, ~ In (Handoff s r ch v) tr).
  { intros s r ch v Hin.
    destruct (in_split _ _ Hin) as [pre [post Htr]].
    destruct (handoff_is_bound_address tr p pre s r ch v post Hexec Htr)
      as [-> [-> [-> [l [Hl ->]]]]].
    pose proof Hexec as Hexec'.
    apply exec_main_inv in Hexec' as [[-> _] | [tr' [-> Hexec']]]; [destruct Hfail|].
    destruct (history _ _ _ Hexec' 1 (startServer addr) eq_refl) as [g [Hrun _]].
    apply startServer_script in Hrun.
    assert (Hnone : In (OAct (AListen "tcp" ":0" None)) (proj 1 tr')).
    { destruct Hfail as [[=] | Hfail]. apply Local_proj, Hfail. }
    assert (Hsend : In (OSend addr (net.Addr l)) (proj 1 tr')).
    { destruct Hin as [[=] | Hin]. apply (Handoff_proj 1 0), Hin. }
    destruct Hrun as [Hpre | [l' Hpre]].
    - apply (prefix_In _ _ _ Hpre) in Hsend. destruct Hsend as [[=] | []].
    - apply (prefix_In _ _ _ Hpre) in Hnone.
      destruct Hnone as [[=] | [[=] | [[=] | []]]]. }
  split; [|split; [exact Hno|]].
  - destruct (main_script tr p Hexec) as [ans Hpre].
    pose proof Hexec as Hexec'.
    apply exec_main_inv in Hexec' as [[-> _] | [tr' [-> _]]]; [destruct Hfail|].
    change (proj 0 (Spawn 0 1 :: tr')) with (OSpawn :: proj 0 tr') in *.
    destruct (proj 0 tr') as [|o os] eqn:Hproj; [reflexivity|]. exfalso.
    apply prefix_cons_inv_2, prefix_cons_inv_1 in Hpre. subst o.
    destruct (proj_Recv 0 addr (address ans) tr') as [s Hs];
      [rewrite Hproj; now left|].
    apply (Hno s 0 addr (address ans)). now right.
  - intros ->.
    inversion Hexec as [Hnil | tr0 p1 e p' Hpre Hstep Heq]; subst.
    inversion Hstep as [| | | | ts H0]; subst.
    apply exec_main_inv in Hpre as [[-> [= ->]] | [tr' [-> Hpre]]]; [discriminate H0|].
    destruct (started_threads _ _ _ _ Hpre H0) as [[_ Hrun] | [[=] _]].
    destruct (proj 0 tr') as [|o os] eqn:Hproj.
    + apply lrun_Recv in Hrun as [[_ [=]] | [v [os' [[=] _]]]].
    + destruct (afterGo_script _ _ Hrun) as [ans Hpre'].
      apply prefix_cons_inv_2, prefix_cons_inv_1 in Hpre'. subst o.
      destruct (proj_Recv 0 addr (address ans) tr') as [s Hs];
        [rewrite Hproj; now left|].
      apply (Hno s 0 addr (address ans)). apply in_or_app. left. now right.
Qed.

End BindFailure.

Section BindFailureWitness.

Import sched script requests.

Lemma bind_failure_stops_everything_witness :
  exec (Running [main]) bindFailure (Crashed nilDereference)
  /\ In (Local 1 (AListen "tcp" ":0" None)) bindFailure
  /\ proj 0 bindFailure = [OSpawn]
  /\ (forall s r ch v, ~ In (Handoff s r ch v) bindFailure)
  /\ Crashed nilDereference <> Exited.
Proof.
  exact (conj bindFailure_exec
           (conj (or_intror (or_introl eq_refl))
              (proj1 bind_failure_stops_everything bindFailure (Crashed nilDereference)
                 bindFailure_exec (or_intror (or_introl eq_refl))))).
Defined.

End BindFailureWitness.
(** ** The requests the driver sends *)

Section DriverRequests.

Import sched script requests.

Lemma driver_In_call (ans : Answers) (a : Action) :
  In (OAct a) (driver ans) ->
  forall res, callResult a = Some res ->
  let serverURL := "http://" +:+ address ans in
  a = AGet (serverURL +:+ "/?param=123&param2=test") res
  \/ a = ADo client.DefaultClient (request2 serverURL) res
  \/ a = ADo postClient (request3 serverURL) res.
Proof.
  intros Hin res Hres. unfold driver, call1, call2, call3, closing in Hin.
  destruct ans as [a0 r1 k2 r2 k3 r3]; cbn [address res1 ok2 res2 ok3 res3] in *.
  destruct r1, k2, r2, k3, r3; simpl in Hin;
    repeat (destruct Hin as [Hin | Hin];
            [ first [ discriminate Hin
                    | injection Hin as <-;
                      first [ discriminate Hres
                            | injection Hres as <-;
                              first [ left; reflexivity
                                    | right; left; reflexivity
                                    | right; right; reflexivity ] ] ] |]);
    destruct Hin.
Qed.

Lemma before_call_address (tr : list Event) (p : Process) (ans : Answers) (a : Action)
    (res : Result) :
  exec (Running [main]) tr p ->
  proj 0 tr `prefix_of` driver ans ->
  In (OAct a) (proj 0 tr) ->
  callResult a = Some res ->
  exists l, In (Local 1 (AListen "tcp" ":0" (Some l))) tr
            /\ In (Handoff 1 0 addr (net.Addr l)) tr
            /\ address ans = net.Addr l.
Proof.
  intros Hexec Hpre Hin Hres.
  assert (Hrecv : In (ORecv addr (address ans)) (proj 0 tr)).
  { destruct (proj 0 tr) as [|o1 [|o2 os]]; [destruct Hin | |].
    - apply prefix_cons_inv_1 in Hpre. subst o1.
      destruct Hin as [[=] | []].
    - apply prefix_cons_inv_2, prefix_cons_inv_1 in Hpre. subst o2. right. now left. }
  apply proj_Recv in Hrecv as [s Hs].
  destruct (in_split _ _ Hs) as [pre [post Htr]].
  destruct (handoff_is_bound_address tr p pre s 0 addr _ post Hexec Htr)
    as [-> [_ [_ [l [Hl Hv]]]]].
  exists l. split; [|split; [now rewrite <- Hv | exact Hv]].
  rewrite Htr. apply in_or_app. now left.
Qed.

(** X7. Every call of the driver goes to the address the server has announced:
    a [Get] is the GET of [/?param=123&param2=test] there; a [Do] is either
    the GET of [/?id=42&user=rvasily] by the default client, with the
    [User-Agent] header [coursera/golang] and no body, or the POST of the
    literal to [/raw_body] with the [Content-Type] header [application/json],
    by the client with the timeout of 10 seconds whose transport dials with a
    timeout and a keep-alive of 30 seconds and keeps 100 idle connections. *)
Theorem driver_requests (tr : list Event) (p : Process) :
  exec (Running [main]) tr p ->
  (forall url res,
      In (Local 0 (AGet url res)) tr ->
      exists l, In (Local 1 (AListen "tcp" ":0" (Some l))) tr
                /\ url = "http://" +:+ net.Addr l +:+ "/?param=123&param2=test")
  /\ (forall c req res,
         In (Local 0 (ADo c req res)) tr ->
         exists l, In (Local 1 (AListen "tcp" ":0" (Some l))) tr
           /\ ((c = client.DefaultClient
                /\ client.Method req = "GET"
                /\ client.URL req = "http://" +:+ net.Addr l +:+ "/?id=42&user=rvasily"
                /\ client.Body req = None
                /\ client.Header req !! "User-Agent" = Some ["coursera/golang"])
               \/ (client.Timeout c = 10000000000%Z
                   /\ (exists t, client.ClientTransport c = Some t
                                 /\ net.Timeout (client.DialContext t) = 30000000000%Z
                                 /\ net.KeepAlive (client.DialContext t) = 30000000000%Z
                                 /\ client.MaxIdleConns t = 100%Z)
                   /\ client.Method req = "POST"
                   /\ client.URL req = "http://" +:+ net.Addr l +:+ "/raw_body"
                   /\ client.Body req
                      = Some ("{" +:+ quoted "id" +:+ ": 42, " +:+ quoted "user"
                                  +:+ ": " +:+ quoted "rvasily" +:+ "}")
                   /\ client.Header req !! "Content-Type" = Some ["application/json"]))).
Proof.
  intros Hexec. destruct (main_script tr p Hexec) as [ans Hpre]. split.
  - intros url res Hin. apply Local_proj in Hin.
    destruct (before_call_address tr p ans _ res Hexec Hpre Hin eq_refl)
      as [l [Hl [_ Ha]]].
    exists l. split; [exact Hl|].
    destruct (driver_In_call ans _ (prefix_In _ _ _ Hpre Hin) res eq_refl)
      as [H | [H | H]]; try discriminate H.
    injection H as ->. rewrite Ha. reflexivity.
  - intros c req res Hin. apply Local_proj in Hin.
    destruct (before_call_address tr p ans _ res Hexec Hpre Hin eq_refl)
      as [l [Hl [_ Ha]]].
    exists l. split; [exact Hl|].
    destruct (driver_In_call ans _ (prefix_In _ _ _ Hpre Hin) res eq_refl)
      as [H | [H | H]]; try discriminate H; injection H as -> ->; rewrite Ha.
    + left. repeat split.
    + right. split; [reflexivity|]. split.
      { exists transport. repeat split. }
      repeat split.
Qed.

End DriverRequests.

Section DriverRequestsWitness.

Import sched script requests.

Lemma driver_requests_witness :
  exec (Running [main]) (fullRun someListener allRefused) Exited
  /\ (forall url res,
         In (Local 0 (AGet url res)) (fullRun someListener allRefused) ->
         exists l, In (Local 1 (AListen "tcp" ":0" (Some l))) (fullRun someListener allRefused)
                   /\ url = "http://" +:+ net.Addr l +:+ "/?param=123&param2=test").
Proof.
  pose proof (fullRun_exec someListener (inr refused) (inr refused) (inr refused)) as H.
  exact (conj H (proj1 (driver_requests (fullRun someListener allRefused) Exited H))).
Defined.

End DriverRequestsWitness.

(** ** The server's answers, all cases *)

Section ServeCases.

Import http requests.





(** X9. The handler of [/raw_body] closes the request body before it returns,
    when the read has failed as when it has succeeded, and writes exactly one
    status; the handler of [/] leaves the body as it is. *)
Theorem raw_body_closes_body (r : Request) (ex : Exchange) :
  bodyClosed (postHandler r ex) = true
  /\ bodyClosed (getHandler r ex) = bodyClosed ex
  /\ wroteHeader (w (postHandler r ex)) = true
  /\ wroteHeader (w (getHandler r ex)) = true
  /\ (wroteHeader (w ex) = true ->
      status (w (postHandler r ex)) = status (w ex)
      /\ status (w (getHandler r ex)) = status (w ex)).
Proof.
  unfold postHandler, getHandler.
  destruct (io.ReadAll (Body r)) as [b [e|]], ex as [[h [] st bd] cl];
    (split; [reflexivity|]); (split; [reflexivity|]); (split; [reflexivity|]);
    (split; [reflexivity|]);
    intros Hwrote; try discriminate Hwrote; split; reflexivity.
Qed.

End ServeCases.

Section ServeCasesWitness.

Import http requests.

Lemma raw_body_closes_body_witness :
  wroteHeader (w (WriteHeader 404 newExchange)) = true
  /\ status (w (postHandler brokenPost (WriteHeader 404 newExchange))) = 404
  /\ status (w (getHandler brokenPost (WriteHeader 404 newExchange))) = 404.
Proof.
  exact (conj eq_refl
           (proj2 (proj2 (proj2 (proj2
              (raw_body_closes_body brokenPost (WriteHeader 404 newExchange))))) eq_refl)).
Defined.

End ServeCasesWitness.

(** ** The echo is faithful; the console output of a served run *)

Section EndToEnd.

Import http requests sched script.




Lemma served_get (target host : string) (h : Header) :
  target <> "*" ->
  cleanPath (url.Path (url.ofTarget target)) = url.Path (url.ofTarget target) ->
  url.Path (url.ofTarget target) <> "/raw_body" ->
  served MethodGet target host h ""
  = inl {| client.StatusCode := 200;
           client.RespBody :=
             {| io.data := ackLine +:+ char LF +:+ urlLine (url.ofTarget target) +:+ char LF;
                io.failure := None |} |}.
Proof.
  intros Hstar Hc Hp. unfold served.
  rewrite (serve_getHandler (incoming MethodGet target host h "") Hstar
             (Handler_of_get (incoming MethodGet target host h "") Hc Hp)).
  reflexivity.
Qed.

Lemma served_post (host : string) (h : Header) (b : string) :
  served MethodPost "/raw_body" host h b
  = inl {| client.StatusCode := 200;
           client.RespBody := {| io.data := echoLine b +:+ char LF; io.failure := None |} |}.
Proof.
  unfold served.
  rewrite (serve_postHandler_ok (incoming MethodPost "/raw_body" host h b) b);
    [reflexivity | discriminate | reflexivity | reflexivity].
Qed.

(** X11. When each of the three calls is answered by the server, whatever the
    address, the process exits normally and the console shows four texts: the
    start line, then one line per call, each ended by three newlines. Each
    answer is on one line, its newlines printed as [\n]; the first holds the
    acknowledgment marker and [param=123&param2=test], the second
    [id=42&user=rvasily]; the third holds the echo of the POST with the
    quotes of the literal escaped, so not the literal itself. *)
Theorem served_run_output (l : net.Listener) :
  exec (Running [main]) (fullRun l (servedAnswers l)) Exited
  /\ exists line1 line2 line3,
       printed (fullRun l (servedAnswers l))
       = [ "Server started at: http://" +:+ net.Addr l +:+ char LF;
           "http.Get body " +:+ line1 +:+ char LF +:+ char LF +:+ char LF;
           "testGetFullReq resp " +:+ line2 +:+ char LF +:+ char LF +:+ char LF;
           "runTransport " +:+ line3 +:+ char LF +:+ char LF +:+ char LF ]
       /\ (count LF line1 = 0 /\ count LF line2 = 0 /\ count LF line3 = 0)
       /\ Embeds line1 "getHandler: incoming request\ngetHandler: r.Url &url.URL{"
       /\ Embeds line1 "param=123&param2=test"
       /\ Embeds line2 "id=42&user=rvasily"
       /\ line3 = quoted ("postHandler: raw body " +:+ escapedData +:+ "\n")
       /\ ~ Embeds line3 data.
Proof.
  split; [apply fullRun_exec|].
  unfold servedAnswers.
  rewrite !served_get by (reflexivity || discriminate). rewrite served_post.
  exists (strconv.Quote (ackLine +:+ char LF
                           +:+ urlLine (url.ofTarget "/?param=123&param2=test")
                           +:+ char LF)),
         (strconv.Quote (ackLine +:+ char LF
                           +:+ urlLine (url.ofTarget "/?id=42&user=rvasily")
                           +:+ char LF)),
         (strconv.Quote (echoLine data +:+ char LF)).
  split; [reflexivity|].
  split; [repeat split; apply Quote_no_LF|].
  repeat split; try (apply Contains_spec; vm_compute; reflexivity).
  rewrite <- Contains_spec. vm_compute. discriminate.
Qed.

End EndToEnd.

(** ** The server goroutine *)

Section ServerGoroutine.

Import sched script requests.






End ServerGoroutine.

(** ** Cleaning a path twice *)

Section CleanIdempotent.

Import path http.



































End CleanIdempotent.

Section RedirectTarget.

Import http requests.



End RedirectTarget.

(** ** Requests at the edge: [*], CONNECT, the host *)

Section EdgeRequests.

Import http requests.





Lemma firstByte_dec (p : string) :
  firstByte p = Some path.slash \/ firstByte p <> Some path.slash.
Proof.
  destruct p as [|c p]; [right; discriminate|]. simpl.
  destruct (Ascii.eqb_spec c path.slash) as [->|Hc]; [now left | right; congruence].
Qed.






End EdgeRequests.

Section EdgeRequestsWitnesses.

Import http requests.



End EdgeRequestsWitnesses.
